(** * LOVE: the FDC preprocess manager

    A shallow embedding of [managers/fdc_preprocess.py] and of the
    configuration wrapper [utils/config_parser.py], with the properties of
    the preprocessing pipeline stated and proved over it.

    Conventions of the model.
    - A Python [str] is a [string]; a character is a code point below 256
      and the character classes ([str.split], [str.lower], the regular
      expression classes) follow the Unicode rules on that range.
    - A raised exception is the [Raise] case of [result]; a function that
      can raise returns a [result].
    - A [dict] whose iteration order is observed (the synonym table) is an
      association list; a [frozenset] is a [gset].
    - The configuration is read through [configparser.ConfigParser()],
      which interpolates [%(name)s] references in every value it hands
      out.
    - Calls to [logging] are left out: they never influence a value. *)

From Stdlib Require Import Ascii NArith ZArith Lia.
From stdpp Require Import base option list sorting gmap strings.

(** ** Exceptions *)

Inductive exn : Type :=
  | KeyError (key : string)
  | NoSectionError (section : string)
  | NoOptionError (key section : string)
  | InterpolationSyntaxError (key section : string)
  | InterpolationMissingOptionError (key section reference : string)
  | InterpolationDepthError (key section : string)
  | ValueError (what : string)
  | TypeError
  | FileNotFoundError (path : string)
  | LibraryError.

Inductive result (A : Type) : Type :=
  | Ok (a : A)
  | Raise (e : exn).
Arguments Ok {A} a.
Arguments Raise {A} e.

#[global] Instance result_ret : MRet result := λ A a, Ok a.
#[global] Instance result_bind : MBind result := λ A B f m,
  match m with
  | Ok a => f a
  | Raise e => Raise e
  end.
#[global] Instance result_fmap : FMap result := λ A B f m,
  match m with
  | Ok a => Ok (f a)
  | Raise e => Raise e
  end.

(** ** Characters and the string builtins *)

Module Py.

Definition code (c : ascii) : N := N_of_ascii c.

Definition between (lo hi : N) (c : ascii) : bool :=
  (lo <=? code c)%N && (code c <=? hi)%N.

(** [str.isspace] of a one-character string; also what [str.split()] and
    the regular expression class [\s] use. *)
Definition isspace (c : ascii) : bool :=
  between 9 13 c || between 28 32 c || (code c =? 133)%N || (code c =? 160)%N.

(** Upper-case letters: A-Z and the Latin-1 capitals. *)
Definition isupper (c : ascii) : bool :=
  between 65 90 c || (between 192 222 c && negb (code c =? 215)%N).

Definition lower_char (c : ascii) : ascii :=
  if isupper c then ascii_of_N (code c + 32) else c.

(** [str.lower] *)
Fixpoint lower (s : string) : string :=
  match s with
  | EmptyString => EmptyString
  | String c s' => String (lower_char c) (lower s')
  end.

(** [len] *)
Definition len (s : string) : Z := Z.of_nat (String.length s).

(** [sep.join(parts)] *)
Fixpoint join (sep : string) (parts : list string) : string :=
  match parts with
  | [] => ""
  | [p] => p
  | p :: rest => p +:+ sep +:+ join sep rest
  end.

(** [s.split(sep)] for a one-character separator: [n] separators give
    [n + 1] fields, empty ones included; the empty string gives [['']]. *)
Fixpoint split_on (sep : ascii) (s : string) : list string :=
  match s with
  | EmptyString => [""]
  | String c s' =>
      if decide (c = sep) then "" :: split_on sep s'
      else match split_on sep s' with
           | field :: fields => String c field :: fields
           | [] => [String c ""]
           end
  end.

(** [s.split()]: the maximal runs of non-whitespace characters.  A
    character that is not whitespace starts a run, or is put in front of
    the run that the next character starts. *)
Definition run_follows (s : string) : bool :=
  match s with
  | String d _ => negb (isspace d)
  | EmptyString => false
  end.
Fixpoint split (s : string) : list string :=
  match s with
  | EmptyString => []
  | String c s' =>
      if isspace c then split s'
      else if run_follows s' then
        match split s' with
        | run :: runs => String c run :: runs
        | [] => [String c ""]
        end
      else String c "" :: split s'
  end.

(** [sorted(l, key=key)]: a stable sort, the keys compared as strings.
    An element is inserted in front of the first one whose key is not
    smaller, so elements with equal keys keep their order. *)
Fixpoint insert_by (key : string → string) (x : string) (l : list string)
    : list string :=
  match l with
  | [] => [x]
  | y :: l' =>
      if String.leb (key x) (key y) then x :: y :: l'
      else y :: insert_by key x l'
  end.
Fixpoint sorted (key : string → string) (l : list string) : list string :=
  match l with
  | [] => []
  | x :: l' => insert_by key x (sorted key l')
  end.

(** [list(set(l))]: the distinct elements of [l], each once, in the
    iteration order of the set, which the language does not fix. *)
Definition list_of_set (l uniq : list string) : Prop :=
  NoDup uniq ∧ ∀ x, x ∈ uniq ↔ x ∈ l.

End Py.

(** ** Vocabulary *)

(** The loop of [get_vocabs]: [vocabs.extend(row.split(' '))] for each row. *)
Definition collect_vocabs (pd_data : list string) : list string :=
  foldl (λ vocabs row, vocabs ++ Py.split_on " " row) [] pd_data.

(** [FdcPreprocessManager.get_vocabs]: the possible return values. *)
Inductive get_vocabs (pd_data : list string) : list string → Prop :=
  | get_vocabs_intro (uniq : list string) :
      Py.list_of_set (collect_vocabs pd_data) uniq →
      get_vocabs pd_data (Py.sorted Py.lower uniq).

(** ** Regular expressions, as far as [_map_synonyms] uses them *)

Module Re.

Definition isalnum (c : ascii) : bool :=
  Py.between 48 57 c || Py.between 65 90 c || Py.between 97 122 c
  || (Py.code c =? 170)%N || Py.between 178 179 c || (Py.code c =? 181)%N
  || Py.between 185 186 c || Py.between 188 190 c
  || Py.between 192 214 c || Py.between 216 246 c || Py.between 248 255 c.

(** The class [\w] of a [str] pattern. *)
Definition isword (c : ascii) : bool := isalnum c || (Py.code c =? 95)%N.

Inductive atom : Type :=
  | WordBoundary            (* \b *)
  | Char (c : ascii).       (* a character standing for itself *)

(** A pattern is an alternation of branches, tried from left to right;
    a branch is a sequence of atoms. *)
Definition pattern : Type := list (list atom).

(** [re.escape(s)]: every character of [s] stands for itself. *)
Fixpoint escape (s : string) : list atom :=
  match s with
  | EmptyString => []
  | String c s' => Char c :: escape s'
  end.

(** [r'\b%s\b' % re.escape(s)] *)
Definition whole_word (s : string) : list atom :=
  WordBoundary :: escape s ++ [WordBoundary].

(** ['|'.join(branches)]: joining no branch at all gives the empty
    pattern, which is one empty branch. *)
Definition alternation (branches : list (list atom)) : pattern :=
  match branches with
  | [] => [[]]
  | _ => branches
  end.

Definition word_before (prev : option ascii) : bool :=
  from_option isword false prev.
Definition word_after (rest : string) : bool :=
  match rest with
  | String c _ => isword c
  | EmptyString => false
  end.

(** [\b] holds between the character [prev] and the text [rest]. *)
Definition boundary (prev : option ascii) (rest : string) : bool :=
  xorb (word_before prev) (word_after rest).

(** One branch matched at the current position; the result is the text
    matched, [group(0)]. *)
Fixpoint match_here (atoms : list atom) (prev : option ascii) (rest : string)
    : option string :=
  match atoms with
  | [] => Some ""
  | WordBoundary :: atoms' =>
      if boundary prev rest then match_here atoms' prev rest else None
  | Char c :: atoms' =>
      match rest with
      | String d rest' =>
          if decide (d = c) then String d <$> match_here atoms' (Some d) rest'
          else None
      | EmptyString => None
      end
  end.

(** The first branch that matches at the current position.  With
    [must_advance] an empty match is refused and the next branch tried. *)
Fixpoint match_first (p : pattern) (must_advance : bool)
    (prev : option ascii) (rest : string) : option string :=
  match p with
  | [] => None
  | branch :: p' =>
      match match_here branch prev rest with
      | Some m =>
          if must_advance && bool_decide (m = "")
          then match_first p' must_advance prev rest
          else Some m
      | None => match_first p' must_advance prev rest
      end
  end.

Section sub.
Context (p : pattern) (repl : string → result string).

(** The matches that start at one position, with the text that
    replaces them and the number of characters they cover.  After an
    empty match the search resumes at the same position and accepts
    only a non-empty match there. *)
Definition replace_at (prev : option ascii) (rest : string)
    : result (string * nat) :=
  match match_first p false prev rest with
  | None => Ok ("", 0)
  | Some m =>
      r ← repl m;
      if decide (m = "") then
        match match_first p true prev rest with
        | None => Ok (r, 0)
        | Some m' => r' ← repl m'; Ok (r +:+ r', String.length m')
        end
      else Ok (r, String.length m)
  end.

(** The scan of [re.sub], from left to right.  [skip] counts the
    characters still covered by the last match; they are dropped. *)
Fixpoint sub_from (skip : nat) (prev : option ascii) (rest : string)
    : result string :=
  match skip, rest with
  | S skip', String c rest' => sub_from skip' (Some c) rest'
  | S _, EmptyString => Ok ""
  | 0, _ =>
      '(out, n) ← replace_at prev rest;
      match rest with
      | EmptyString => Ok out
      | String c rest' =>
          match n with
          | 0 => tail ← sub_from 0 (Some c) rest'; Ok (out +:+ String c tail)
          | S n' => tail ← sub_from n' (Some c) rest'; Ok (out +:+ tail)
          end
      end
  end.

(** [re.sub(p, repl, text)] with a callable [repl], which receives
    [group(0)] of each match. *)
Definition sub (text : string) : result string := sub_from 0 None text.
End sub.

End Re.

(** ** Synonyms *)

(** The dict that [_load_synonym_map] returns, in insertion order, when
    the cells of both columns of the file are strings. *)
Definition synonym_table : Type := list (string * string).

(** [table[key]] *)
Fixpoint dict_get (table : synonym_table) (key : string) : result string :=
  match table with
  | [] => Raise (KeyError key)
  | (k, v) :: table' => if decide (k = key) then Ok v else dict_get table' key
  end.

(** [FdcPreprocessManager._map_synonyms] *)
Definition _map_synonyms (text : string) (table : synonym_table) : result string :=
  let regex_str := Re.alternation (Re.whole_word <$> table.*1) in
  Re.sub regex_str (λ x, dict_get table x) text.

(** ** The configuration wrapper, [utils/config_parser.py] *)

Definition options : Type := list (string * string).

(** The first value bound to [key]. *)
Fixpoint assoc {V : Type} (key : string) (l : list (string * V)) : option V :=
  match l with
  | [] => None
  | (k, v) :: l' => if decide (k = key) then Some v else assoc key l'
  end.

(** The parsed .ini file: the options of the DEFAULT section and those of
    the other sections.  Option names are case sensitive ([optionxform] is
    [str]); values are the strings as the file has them, before any
    interpolation. *)
Record ConfigParser : Type := {
  defaults : options;
  sections : list (string * options);
}.

Module Config.

(** The options of a section proper; DEFAULT has none of its own. *)
Definition section_dict (cfg : ConfigParser) (section : string) : option options :=
  if decide (section = "DEFAULT") then Some [] else assoc section (sections cfg).

(** An option is looked up in the section, then in DEFAULT. *)
Definition unified (cfg : ConfigParser) (opts : options) (key : string)
    : option string :=
  match assoc key opts with
  | Some v => Some v
  | None => assoc key (defaults cfg)
  end.

(** [c in s] *)
Fixpoint contains (c : ascii) (s : string) : bool :=
  match s with
  | EmptyString => false
  | String d s' => bool_decide (d = c) || contains c s'
  end.

(** Where [BasicInterpolation._interpolate_some] stands in a value: in
    plain text, behind a percent sign, inside the name of a reference
    [%(name)s], or behind its closing parenthesis. *)
Inductive interpolation_state : Type :=
  | Plain
  | Percent
  | Name (var : string)
  | Closed (var : string).

Definition MAX_INTERPOLATION_DEPTH : nat := 10.

(** [BasicInterpolation._interpolate_some], for the option [key] of
    [section]: [%%] stands for a percent sign, [%(name)s] for the value of
    the option [name], which is expanded in turn when it has a percent
    sign; any other use of the percent sign is an error.  [levels] counts
    the expansions that may still be nested: the depth of the call is
    [MAX_INTERPOLATION_DEPTH + 1 - levels]. *)
Fixpoint _interpolate_some (lookup : string → option string) (key section : string)
    (levels : nat) {struct levels} : interpolation_state → string → result string :=
  match levels with
  | 0 => λ _ _, Raise (InterpolationDepthError key section)
  | S levels' =>
      fix scan (state : interpolation_state) (rest : string) : result string :=
        match rest with
        | EmptyString =>
            match state with
            | Plain => Ok ""
            | _ => Raise (InterpolationSyntaxError key section)
            end
        | String c rest' =>
            match state with
            | Plain =>
                if bool_decide (c = "%"%char) then scan Percent rest'
                else String c <$> scan Plain rest'
            | Percent =>
                if bool_decide (c = "%"%char) then String c <$> scan Plain rest'
                else if bool_decide (c = "("%char) then scan (Name "") rest'
                else Raise (InterpolationSyntaxError key section)
            | Name var =>
                if bool_decide (c = ")"%char)
                then if bool_decide (var = "")
                     then Raise (InterpolationSyntaxError key section)
                     else scan (Closed var) rest'
                else scan (Name (var +:+ String c "")) rest'
            | Closed var =>
                if bool_decide (c = "s"%char)
                then match lookup var with
                     | None => Raise (InterpolationMissingOptionError key section var)
                     | Some v =>
                         expansion ←
                           (if contains "%" v
                            then _interpolate_some lookup key section levels' Plain v
                            else Ok v);
                         tail ← scan Plain rest';
                         Ok (expansion +:+ tail)
                     end
                else Raise (InterpolationSyntaxError key section)
            end
        end
  end.

(** [BasicInterpolation.before_get], which every [get] of
    [configparser.ConfigParser()] applies to the value it has found;
    [lookup] is the section with the defaults behind it. *)
Definition before_get (lookup : string → option string) (key section value : string)
    : result string :=
  _interpolate_some lookup key section MAX_INTERPOLATION_DEPTH Plain value.

(** [configparser.ConfigParser.get(section, key)] *)
Definition get (cfg : ConfigParser) (section key : string) : result string :=
  match section_dict cfg section with
  | None => Raise (NoSectionError section)
  | Some opts =>
      match unified cfg opts key with
      | Some v => before_get (unified cfg opts) key section v
      | None => Raise (NoOptionError key section)
      end
  end.

(** [BOOLEAN_STATES] applied to [value.lower()] *)
Definition boolean (value : string) : result bool :=
  let v := Py.lower value in
  if bool_decide (v ∈ ["1"; "yes"; "true"; "on"]) then Ok true
  else if bool_decide (v ∈ ["0"; "no"; "false"; "off"]) then Ok false
  else Raise (ValueError value).

Definition digit (c : ascii) : option Z :=
  if Py.between 48 57 c then Some (Z.of_N (Py.code c) - 48)%Z else None.

(** Decimal digits, single underscores allowed between them. *)
Fixpoint digits_go (acc : Z) (after_digit : bool) (s : string) : option Z :=
  match s with
  | EmptyString => if after_digit then Some acc else None
  | String c s' =>
      match digit c with
      | Some d => digits_go (10 * acc + d)%Z true s'
      | None =>
          if bool_decide (c = "_"%char) && after_digit
          then digits_go acc false s'
          else None
      end
  end.

Fixpoint lstrip (s : string) : string :=
  match s with
  | String c s' => if Py.isspace c then lstrip s' else s
  | EmptyString => EmptyString
  end.
Definition strip (s : string) : string :=
  String.rev (lstrip (String.rev (lstrip s))).

(** [int(value)] *)
Definition int (value : string) : result Z :=
  let parsed :=
    match strip value with
    | String "-" s' => Z.opp <$> digits_go 0 false s'
    | String "+" s' => digits_go 0 false s'
    | s => digits_go 0 false s
    end in
  from_option Ok (Raise (ValueError value)) parsed.

End Config.

(** [ConfigParser.getstr]: [self.config[section][key]], which raises
    [KeyError] for a section or an option that is not there and calls
    [get] otherwise. *)
Definition getstr (cfg : ConfigParser) (key section : string) : result string :=
  match Config.section_dict cfg section with
  | None => Raise (KeyError section)
  | Some opts =>
      match Config.unified cfg opts key with
      | Some v => Config.before_get (Config.unified cfg opts) key section v
      | None => Raise (KeyError key)
      end
  end.

(** [ConfigParser.getint] *)
Definition getint (cfg : ConfigParser) (key section : string) : result Z :=
  Config.get cfg section key ≫= Config.int.

(** [ConfigParser.getbool] *)
Definition getbool (cfg : ConfigParser) (key section : string) : result bool :=
  Config.get cfg section key ≫= Config.boolean.

(** ** The library functions the manager calls *)

Module Gpp.

(** Every maximal run of characters of class [cls] is replaced by [r]:
    [re.sub('[cls]+', r, s)]. *)
Fixpoint sub_runs (cls : ascii → bool) (r : string) (in_run : bool) (s : string)
    : string :=
  match s with
  | EmptyString => EmptyString
  | String c s' =>
      if cls c then
        if in_run then sub_runs cls r true s' else r +:+ sub_runs cls r true s'
      else String c (sub_runs cls r false s')
  end.

(** [string.punctuation] *)
Definition ispunct (c : ascii) : bool :=
  Py.between 33 47 c || Py.between 58 64 c || Py.between 91 96 c
  || Py.between 123 126 c.

Definition isdigit09 (c : ascii) : bool := Py.between 48 57 c.

(** [gpp.strip_punctuation]: [RE_PUNCT.sub(" ", s)] *)
Definition strip_punctuation (s : string) : string := sub_runs ispunct " " false s.

(** [gpp.strip_multiple_whitespaces]: [RE_WHITESPACE.sub(" ", s)] *)
Definition strip_multiple_whitespaces (s : string) : string :=
  sub_runs Py.isspace " " false s.

(** [gpp.strip_numeric]: [RE_NUMERIC.sub("", s)] *)
Definition strip_numeric (s : string) : string := sub_runs isdigit09 "" false s.

(** [gpp.strip_short] *)
Definition strip_short (s : string) (minsize : Z) : string :=
  Py.join " " (filter (λ e, (minsize ≤ Py.len e)%Z) (Py.split s)).

End Gpp.

(** What the model takes from gensim and pandas without looking inside:
    the default stopwords, the lemmatizer and the phrase models. *)
Class Library : Type := {
  float : Type;
  (** [float(value)], as [configparser] applies it *)
  py_float : string → option float;
  (** [gpp.STOPWORDS] *)
  STOPWORDS : gset string;
  (** [gensim.utils.lemmatize], its byte strings decoded *)
  lemmatize : string → result (list string);
  phrase_model : Type;
  (** [Phrases(sentences, min_count, threshold, max_vocab_size,
      progress_per, scoring)] *)
  Phrases : list (list string) → Z → float → Z → Z → string → result phrase_model;
  (** [model[sentence]] *)
  getitem : phrase_model → list string → list string;
  (** [model.export_phrases(sentences)], the phrases decoded *)
  export_phrases : phrase_model → list (list string) → list (string * float);
}.

(** ** The preprocess manager *)

(** A cell of the input series: a string, or a missing value ([None],
    [NaN]). *)
Inductive cell : Type :=
  | Str (s : string)
  | Missing.

(** [gensim.utils.to_unicode]: a [str] is returned as it is; anything else
    is handed to [str(text, encoding)], which raises for a value that is
    not bytes. *)
Definition to_unicode (text : cell) : result string :=
  match text with
  | Str s => Ok s
  | Missing => Raise TypeError
  end.

(** [FdcPreprocessManager._custom_remove_stopwords] *)
Definition _custom_remove_stopwords (s : string) (stopwords : gset string) : string :=
  Py.join " " (filter (λ w, w ∉ stopwords) (Py.split s)).

(** [re.sub(r'/[^\s]+', '', s)]: a slash followed by at least one
    non-space character is deleted together with the run of non-space
    characters after it. *)
Fixpoint strip_tags (in_tag : bool) (s : string) : string :=
  match s with
  | EmptyString => EmptyString
  | String c s' =>
      if Py.isspace c then String c (strip_tags false s')
      else if in_tag then strip_tags true s'
      else if bool_decide (c = "/"%char) &&
              match s' with String d _ => negb (Py.isspace d) | EmptyString => false end
      then strip_tags true s'
      else String c (strip_tags false s')
  end.

(** The first row of each phrase: [drop_duplicates(subset='phrase')]. *)
Fixpoint drop_duplicates {V : Type} (seen : list string) (rows : list (string * V))
    : list (string * V) :=
  match rows with
  | [] => []
  | (phrase, score) :: rows' =>
      if bool_decide (phrase ∈ seen) then drop_duplicates seen rows'
      else (phrase, score) :: drop_duplicates (phrase :: seen) rows'
  end.

(** [pd_data.apply(f)]: [f] on each cell in order; the first exception
    ends the call. *)
Fixpoint series_apply {A B : Type} (f : A → result B) (pd_data : list A)
    : result (list B) :=
  match pd_data with
  | [] => Ok []
  | x :: rest =>
      y ← f x;
      ys ← series_apply f rest;
      Ok (y :: ys)
  end.

Section manager.
Context `{Library}.

(** What the manager reads from outside: its configuration and the files
    the configuration names. *)
Record environment : Type := {
  configparser : ConfigParser;
  (** [open(path, 'r').read()] *)
  read_text : string → result string;
  (** [pd.read_csv(path, sep='\t', index_col='from')['to'].to_dict()] *)
  read_synonym_map : string → result synonym_table;
  (** [Phraser.load(path)] *)
  Phraser_load : string → result phrase_model;
}.

(** What the manager does to the outside. *)
Inductive event : Type :=
  | ModelLoaded (path : string)
  | ModelTrained (sentences : list (list string))
  | ModelSaved (path : string) (model : phrase_model)
  | PhrasesDumped (path : string) (rows : list (string * float)).

(** A computation that can raise and that appends to the trace of
    events. *)
Definition IO (A : Type) : Type := list event → result A * list event.

Definition io_ret {A : Type} (a : A) : IO A := λ tr, (Ok a, tr).
Definition io_bind {A B : Type} (m : IO A) (f : A → IO B) : IO B := λ tr,
  match m tr with
  | (Ok a, tr') => f a tr'
  | (Raise e, tr') => (Raise e, tr')
  end.
Definition lift {A : Type} (r : result A) : IO A := λ tr, (r, tr).
Definition emit (e : event) : IO unit := λ tr, (Ok (), tr ++ [e]).

(** The steps of the filter chain.  The source appends closures; a step
    records which closure it is and what the closure captured. *)
Inductive custom_filter : Type :=
  | Lower
  | MapSynonyms (map_table : synonym_table)
  | StripPunctuation
  | StripMultipleWhitespaces
  | StripNumeric
  | RemoveStopwords (stopwords : gset string)
  | StripShort (minsize : Z)
  | Lemmatize.

(** [FdcPreprocessManager._custom_lemmatize] *)
Definition _custom_lemmatize (text : string) : result string :=
  result ← lemmatize text;
  let result := Py.join " " result in
  Ok (strip_tags false result).

(** Calling a step of the chain. *)
Definition call_filter (f : custom_filter) (x : string) : result string :=
  match f with
  | Lower => Ok (Py.lower x)
  | MapSynonyms map_table => _map_synonyms x map_table
  | StripPunctuation => Ok (Gpp.strip_punctuation x)
  | StripMultipleWhitespaces => Ok (Gpp.strip_multiple_whitespaces x)
  | StripNumeric => Ok (Gpp.strip_numeric x)
  | RemoveStopwords stopwords => Ok (_custom_remove_stopwords x stopwords)
  | StripShort minsize => Ok (Gpp.strip_short x minsize)
  | Lemmatize => _custom_lemmatize x
  end.

(** [FdcPreprocessManager._load_synonym_map] *)
Definition _load_synonym_map (env : environment) (section : string)
    : result synonym_table :=
  path ← getstr (configparser env) "synonym_map" section;
  read_synonym_map env path.

(** [str.splitlines] on the text of a file opened in text mode: a line
    ends at a line feed (which carriage returns were translated to), a
    vertical tab, a form feed, a file, group or record separator, or a
    next-line character; the last line needs no end. *)
Definition islinebreak (c : ascii) : bool :=
  Py.between 10 13 c || Py.between 28 30 c || (Py.code c =? 133)%N.
Fixpoint splitlines (s : string) : list string :=
  match s with
  | EmptyString => []
  | String c s' =>
      if islinebreak c then "" :: splitlines s'
      else match splitlines s' with
           | line :: lines => String c line :: lines
           | [] => [String c ""]
           end
  end.

(** The stopword computation proper: [my_stopwords] extended and then
    filtered, as a frozenset. *)
Definition custom_stopwords (base : gset string) (to_add_list to_remove_list : list string)
    : gset string :=
  let my_stopwords := elements base in
  let my_stopwords := my_stopwords ++ to_add_list in
  let my_stopwords := filter (λ x, x ∉ to_remove_list) my_stopwords in
  list_to_set my_stopwords.

(** [FdcPreprocessManager._generate_custom_stopwords] *)
Definition _generate_custom_stopwords (env : environment) (section : string)
    : result (gset string) :=
  to_add_filename ← getstr (configparser env) "stopwords_to_add" section;
  to_add_list ← splitlines <$> read_text env to_add_filename;
  to_remove_filename ← getstr (configparser env) "stopwords_to_remove" section;
  to_remove_list ← splitlines <$> read_text env to_remove_filename;
  Ok (custom_stopwords STOPWORDS to_add_list to_remove_list).

(** One [if self.configparser.getbool(key, section): ... append] block
    of the builder. *)
Definition append_if (cfg : ConfigParser) (key section : string)
    (make : result custom_filter) (custom_filters : list custom_filter)
    : result (list custom_filter) :=
  enabled ← getbool cfg key section;
  if enabled : bool then f ← make; Ok (custom_filters ++ [f])
  else Ok custom_filters.

(** [FdcPreprocessManager._build_custom_filter_list] *)
Definition _build_custom_filter_list (env : environment) (section : string)
    : result (list custom_filter) :=
  let cfg := configparser env in
  let custom_filters := [] in
  custom_filters ← append_if cfg "lower" section (Ok Lower) custom_filters;
  custom_filters ← append_if cfg "map_synonym" section
    (MapSynonyms <$> _load_synonym_map env section) custom_filters;
  custom_filters ← append_if cfg "strip_punctuation" section
    (Ok StripPunctuation) custom_filters;
  custom_filters ← append_if cfg "strip_multiple_whitespaces" section
    (Ok StripMultipleWhitespaces) custom_filters;
  custom_filters ← append_if cfg "strip_numeric" section
    (Ok StripNumeric) custom_filters;
  custom_filters ← append_if cfg "remove_stopwords" section
    (RemoveStopwords <$> _generate_custom_stopwords env section) custom_filters;
  custom_filters ← append_if cfg "strip_short" section
    (StripShort <$> getint cfg "strip_short_minsize" section) custom_filters;
  custom_filters ← append_if cfg "lemmatize" section
    (Ok Lemmatize) custom_filters;
  Ok custom_filters.

(** [gpp.preprocess_string(s, filters)] *)
Definition preprocess_string (s : cell) (filters : list custom_filter)
    : result (list string) :=
  s ← to_unicode s;
  s ← foldl (λ s f, s ≫= call_filter f) (Ok s) filters;
  Ok (Py.split s).

(** [ConfigParser.getfloat] *)
Definition getfloat (cfg : ConfigParser) (key section : string) : result float :=
  value ← Config.get cfg section key;
  from_option Ok (Raise (ValueError value)) (py_float value).

(** [FdcPreprocessManager._generate_phrase] *)
Definition _generate_phrase (env : environment) (pd_data : list (list string))
    (load_model : bool) (section : string) : IO (list (list string)) :=
  let cfg := configparser env in
  io_bind (lift (getbool cfg "generate_phrase" section)) (λ generate_phrase,
  if negb generate_phrase then io_ret pd_data
  else if load_model then
    io_bind (lift (getstr cfg "phrase_model" section)) (λ model_filepath,
    io_bind (lift (Phraser_load env model_filepath)) (λ model,
    io_bind (emit (ModelLoaded model_filepath)) (λ _,
    io_ret (getitem model <$> pd_data))))
  else
    let sentences := pd_data in
    io_bind (lift (getint cfg "min_count" section)) (λ min_count,
    io_bind (lift (getfloat cfg "threshold" section)) (λ threshold,
    io_bind (lift (getint cfg "max_vocab_size" section)) (λ max_vocab_size,
    io_bind (lift (getint cfg "progress_per" section)) (λ progress_per,
    io_bind (lift (getstr cfg "scoring" section)) (λ scoring,
    io_bind (lift (Phrases sentences min_count threshold max_vocab_size
                     progress_per scoring)) (λ model,
    io_bind (emit (ModelTrained sentences)) (λ _,
    let pd_data := getitem model <$> pd_data in
    io_bind (lift (getstr cfg "phrase_model" section)) (λ model_filepath,
    io_bind (emit (ModelSaved model_filepath model)) (λ _,
    let phrase_score_list := export_phrases model sentences in
    let pd_phrase_score := drop_duplicates [] phrase_score_list in
    io_bind (lift (getstr cfg "phrase_dump_filename" section)) (λ export_filepath,
    io_bind (emit (PhrasesDumped export_filepath pd_phrase_score)) (λ _,
    io_ret pd_data)))))))))))).

(** [FdcPreprocessManager.preprocess_column] *)
Definition preprocess_column (env : environment) (pd_data : list cell)
    (load_model : bool) : IO (list string) :=
  io_bind (lift (_build_custom_filter_list env "filter")) (λ custom_filters,
  io_bind (lift (series_apply (λ x, preprocess_string x custom_filters) pd_data))
    (λ pd_data,
  io_bind (_generate_phrase env pd_data load_model "phrase") (λ pd_data,
  io_ret (Py.join " " <$> pd_data)))).

End manager.

(** A library to run the manager with: decimal thresholds kept as text, a
    lemmatizer that only splits, and a phrase model that merges nothing. *)
Definition plain_library : Library := {|
  float := string;
  py_float := Some;
  STOPWORDS := {["the"; "a"; "of"]};
  lemmatize := λ s, Ok (Py.split s);
  phrase_model := unit;
  Phrases := λ _ _ _ _ _ _, Ok ();
  getitem := λ _ sentence, sentence;
  export_phrases := λ _ _, [];
|}.

(** The line feed, as a string. *)
Definition newline : string := String "010" "".

(** Two stopword files: [add.txt] with the lines "cat" and "meow", and
    [remove.txt] with the lines "meow" and "a". *)
Definition sample_text (path : string) : result string :=
  if decide (path = "add.txt") then Ok ("cat" +:+ newline +:+ "meow" +:+ newline)
  else if decide (path = "remove.txt") then Ok ("meow" +:+ newline +:+ "a")
  else Raise (FileNotFoundError path).

(** An environment with these files and a synonym map in [synonyms.tsv];
    the filter section has the options [flags] and the names of the
    files, phrase generation is off. *)
Definition sample_env `{Library} (flags : options) : environment := {|
  configparser := {|
    defaults := [("strip_short_minsize", "3")];
    sections :=
      [("phrase", [("generate_phrase", "no")]);
       ("filter", flags ++ [("stopwords_to_add", "add.txt");
                            ("stopwords_to_remove", "remove.txt");
                            ("synonym_map", "synonyms.tsv")])];
  |};
  read_text := sample_text;
  read_synonym_map := λ path,
    if decide (path = "synonyms.tsv") then Ok [("kitty", "cat")]
    else Raise (FileNotFoundError path);
  Phraser_load := λ path, Raise (FileNotFoundError path);
|}.

(** The environment [env] with another parsed configuration. *)
Definition with_config `{Library} (env : environment) (cfg : ConfigParser)
    : environment := {|
  configparser := cfg;
  read_text := read_text env;
  read_synonym_map := read_synonym_map env;
  Phraser_load := Phraser_load env;
|}.

(** ** Vocabulary of the statements *)

(** The order that [sorted] establishes: by key. *)
Definition key_le (key : string → string) (a b : string) : Prop :=
  String.le (key a) (key b).

(** The eight steps a chain can have, in the order of the source text of
    [_build_custom_filter_list]. *)
Inductive step : Type :=
  | lower_step
  | map_synonym_step
  | strip_punctuation_step
  | strip_multiple_whitespaces_step
  | strip_numeric_step
  | remove_stopwords_step
  | strip_short_step
  | lemmatize_step.

Definition canonical_order : list step :=
  [lower_step; map_synonym_step; strip_punctuation_step;
   strip_multiple_whitespaces_step; strip_numeric_step;
   remove_stopwords_step; strip_short_step; lemmatize_step].

(** The configuration key that enables a step. *)
Definition flag (s : step) : string :=
  match s with
  | lower_step => "lower"
  | map_synonym_step => "map_synonym"
  | strip_punctuation_step => "strip_punctuation"
  | strip_multiple_whitespaces_step => "strip_multiple_whitespaces"
  | strip_numeric_step => "strip_numeric"
  | remove_stopwords_step => "remove_stopwords"
  | strip_short_step => "strip_short"
  | lemmatize_step => "lemmatize"
  end.

(** Which step a filter of the chain is. *)
Definition step_of `{Library} (f : custom_filter) : step :=
  match f with
  | Lower => lower_step
  | MapSynonyms _ => map_synonym_step
  | StripPunctuation => strip_punctuation_step
  | StripMultipleWhitespaces => strip_multiple_whitespaces_step
  | StripNumeric => strip_numeric_step
  | RemoveStopwords _ => remove_stopwords_step
  | StripShort _ => strip_short_step
  | Lemmatize => lemmatize_step
  end.

(** The same options, written in another order within each section. *)
Definition reordered (cfg cfg' : ConfigParser) : Prop :=
  NoDup (defaults cfg).*1 ∧ defaults cfg ≡ₚ defaults cfg'
  ∧ Forall2 (λ s s', s.1 = s'.1 ∧ NoDup s.2.*1 ∧ s.2 ≡ₚ s'.2)
      (sections cfg) (sections cfg').

(** Every character of [s] satisfies [P]. *)
Fixpoint all_chars (P : ascii → bool) (s : string) : bool :=
  match s with
  | EmptyString => true
  | String c s' => P c && all_chars P s'
  end.

(** A token: not empty and free of whitespace. *)
Definition is_token (t : string) : Prop :=
  t ≠ "" ∧ all_chars (λ c, negb (Py.isspace c)) t = true.

Definition first_char (s : string) : option ascii :=
  match s with
  | String c _ => Some c
  | EmptyString => None
  end.

Fixpoint last_char (s : string) : option ascii :=
  match s with
  | EmptyString => None
  | String c EmptyString => Some c
  | String _ s' => last_char s'
  end.

(** No whitespace at the character [c], if there is one. *)
Definition no_space_at (c : option ascii) : Prop :=
  from_option Py.isspace false c = false.

(** Eight flags, written in an order that is not the one of the chain. *)
Definition scrambled_flags : options :=
  [("lemmatize", "no"); ("strip_short", "yes"); ("lower", "True");
   ("remove_stopwords", "on"); ("map_synonym", "1"); ("strip_numeric", "off");
   ("strip_multiple_whitespaces", "0"); ("strip_punctuation", "yes")].

Definition scrambled_enabled (s : step) : bool :=
  match s with
  | lemmatize_step | strip_numeric_step | strip_multiple_whitespaces_step => false
  | _ => true
  end.

(** What is applied to each sequence when [_generate_phrase] returns:
    nothing, or a phrase model. *)
Inductive phrase_step `{Library} : (list string → list string) → Prop :=
  | phrase_step_skip : phrase_step id
  | phrase_step_model (model : phrase_model) : phrase_step (getitem model).

(** A column with a missing value between two strings. *)
Definition column_with_missing : list cell :=
  [Str "The Kitty sat."; Missing; Str "Cats meow loudly"].

(** A column with an empty string between two strings. *)
Definition column_with_empty : list cell :=
  [Str "The Kitty sat."; Str ""; Str "Cats meow loudly"].

(** A piece of a text that [_map_synonyms] scanned: a character that was
    kept, or an occurrence of a key that was replaced by its value. *)
Inductive segment : Type :=
  | Kept (c : ascii)
  | Replaced (key value : string).

Definition source (seg : segment) : string :=
  match seg with
  | Kept c => String c ""
  | Replaced key _ => key
  end.
Definition target (seg : segment) : string :=
  match seg with
  | Kept c => String c ""
  | Replaced _ value => value
  end.

(** The text that was scanned and the text that was returned. *)
Fixpoint sources (segs : list segment) : string :=
  match segs with
  | [] => ""
  | seg :: segs' => source seg +:+ sources segs'
  end.
Fixpoint targets (segs : list segment) : string :=
  match segs with
  | [] => ""
  | seg :: segs' => target seg +:+ targets segs'
  end.

(** The last character of [s], or [prev] when [s] is empty. *)
Definition last_or (prev : option ascii) (s : string) : option ascii :=
  from_option Some prev (last_char s).

(** [key] occurs as a whole word: it stands after the character [prev] and
    in front of the text [right], with a word boundary on both sides. *)
Definition whole_word_at (prev : option ascii) (key right : string) : Prop :=
  Re.boundary prev (key +:+ right) = true
  ∧ Re.boundary (last_or prev key) right = true.

(** No word character stands directly before the occurrence, after
    [prev], and none directly behind it, at the head of [right]: the
    occurrence is not part of a larger word. *)
Definition stands_alone (prev : option ascii) (right : string) : Prop :=
  Re.word_before prev = false ∧ Re.word_after right = false.



(** [key] is the first key of the table, in the order of the table, that
    occurs as a whole word after [prev] at the head of [rest]: no key
    listed before it does. *)
Definition first_listed (table : synonym_table) (prev : option ascii)
    (key rest : string) : Prop :=
  ∃ earlier later,
    table.*1 = earlier ++ key :: later
    ∧ ∀ k right, k ∈ earlier → rest = k +:+ right → ¬ whole_word_at prev k right.

(** The scan from left to right: a character is kept where no key occurs
    as a whole word, and where one does, the first key listed that does
    is replaced and the scan goes on behind it. *)
Inductive scanned (table : synonym_table) : option ascii → list segment → Prop :=
  | scanned_nil prev : scanned table prev []
  | scanned_kept prev c segs :
      (∀ key right, key ∈ table.*1 → String c (sources segs) = key +:+ right →
                    ¬ whole_word_at prev key right) →
      scanned table (Some c) segs →
      scanned table prev (Kept c :: segs)
  | scanned_replaced prev key value segs :
      key ≠ "" →
      dict_get table key = Ok value →
      whole_word_at prev key (sources segs) →
      first_listed table prev key (key +:+ sources segs) →
      scanned table (last_char key) segs →
      scanned table prev (Replaced key value :: segs).




(** A key that is the beginning of another one. *)
Definition prefix_table : synonym_table := [("a", "x"); ("a b", "y")].

(** A key that ends with characters that are not word characters. *)
Definition cpp_table : synonym_table := [("c++", "cpp")].

(** ** The rest of the configuration wrapper *)

Module Wrapper.

(** [ConfigParser.options]: the option names of a section, followed by
    those of DEFAULT that the section does not have; DEFAULT itself is no
    section here. *)
Definition options (cfg : ConfigParser) (section : string) : result (list string) :=
  match assoc section (sections cfg) with
  | None => Raise (NoSectionError section)
  | Some opts =>
      Ok (opts.*1 ++ filter (λ key, key ∉ opts.*1) (defaults cfg).*1)
  end.

(** [ConfigParser.sections]: the names of the sections, DEFAULT left
    out. *)
Definition sections (cfg : ConfigParser) : list string := (sections cfg).*1.

End Wrapper.

(** ** Further vocabulary of the statements *)

(** A key that is one word: not empty, and word characters only. *)
Definition is_word_key (key : string) : Prop :=
  key ≠ "" ∧ all_chars Re.isword key = true.

(** No tag is left in [s]: every slash is followed by whitespace or ends
    the text. *)
Fixpoint no_tag (s : string) : bool :=
  match s with
  | EmptyString => true
  | String c s' =>
      negb (bool_decide (c = "/"%char) && Py.run_follows s') && no_tag s'
  end.

(** A lemma with its tag, as the lemmatizer writes it. *)
Definition tagged (lemma_tag : string * string) : string :=
  lemma_tag.1 +:+ "/" +:+ lemma_tag.2.

(** A lemma has no slash and no whitespace; a tag is not empty and has no
    whitespace. *)
Definition well_tagged (lemma_tag : string * string) : Prop :=
  all_chars (λ c, negb (bool_decide (c = "/"%char)) && negb (Py.isspace c))
    lemma_tag.1 = true
  ∧ lemma_tag.2 ≠ ""
  ∧ all_chars (λ c, negb (Py.isspace c)) lemma_tag.2 = true.

(** The kinds of events, in the order in which a training run makes
    them. *)
Inductive event_kind : Type :=
  | loaded
  | trained
  | saved
  | dumped.

Definition kind_of `{Library} (e : event) : event_kind :=
  match e with
  | ModelLoaded _ => loaded
  | ModelTrained _ => trained
  | ModelSaved _ _ => saved
  | PhrasesDumped _ _ => dumped
  end.

(** A library whose phrase model exports one phrase twice. *)
Definition exporting_library : Library := {|
  float := string;
  py_float := Some;
  STOPWORDS := ∅;
  lemmatize := λ s, Ok ((λ t, t +:+ "/NN") <$> Py.split s);
  phrase_model := unit;
  Phrases := λ _ _ _ _ _ _, Ok ();
  getitem := λ _ sentence, sentence;
  export_phrases := λ _ _,
    [("ice cream", "12.5"); ("new york", "11.0"); ("ice cream", "12.5")];
|}.

(** An environment for a run with phrases: the hyperparameters of the
    training, and a saved model at [phrases.model]. *)
Definition training_env : @environment exporting_library := {|
  configparser := {|
    defaults := [];
    sections :=
      [("phrase", [("generate_phrase", "yes"); ("min_count", "5");
                   ("threshold", "10.0"); ("max_vocab_size", "40_000");
                   ("progress_per", "1000"); ("scoring", "default");
                   ("phrase_model", "phrases.model");
                   ("phrase_dump_filename", "phrases.tsv")])];
  |};
  read_text := sample_text;
  read_synonym_map := λ path, Raise (FileNotFoundError path);
  Phraser_load := λ path,
    if decide (path = "phrases.model")
    then Ok (() : @phrase_model exporting_library)
    else Raise (FileNotFoundError path);
|}.

(** The environment [env] with all its files taken away. *)
Definition without_files `{Library} (env : environment) : environment := {|
  configparser := configparser env;
  read_text := λ path, Raise (FileNotFoundError path);
  read_synonym_map := λ path, Raise (FileNotFoundError path);
  Phraser_load := λ path, Raise (FileNotFoundError path);
|}.

(** Flags that switch off the two steps that read a file. *)
Definition fileless_flags : options :=
  [("lower", "yes"); ("map_synonym", "no"); ("strip_punctuation", "yes");
   ("strip_multiple_whitespaces", "yes"); ("strip_numeric", "no");
   ("remove_stopwords", "false"); ("strip_short", "yes"); ("lemmatize", "no")].

(** A configuration with a default and two sections. *)
Definition small_config : ConfigParser := {|
  defaults := [("threshold", "10")];
  sections := [("filter", [("lower", "yes"); ("threshold", "3")]);
               ("phrase", [("scoring", "npmi")])];
|}.

(** The exceptions of the interpolation. *)
Definition interpolation_error (e : exn) : Prop :=
  match e with
  | InterpolationSyntaxError _ _
  | InterpolationMissingOptionError _ _ _
  | InterpolationDepthError _ _ => True
  | _ => False
  end.

(** [getstr] has found a value for the option: it returns, or the
    interpolation of the value fails. *)
Definition finds_value (r : result string) : Prop :=
  (∃ v, r = Ok v) ∨ (∃ e, r = Raise e ∧ interpolation_error e).

(** A configuration whose values use the percent sign: a reference to a
    default, a reference to an option of the section, an escaped percent
    sign, a percent sign on its own, a reference to nothing, and a
    reference to itself. *)
Definition percent_config : ConfigParser := {|
  defaults := [("dir", "/data")];
  sections :=
    [("phrase", [("phrase_model", "%(dir)s/phrases.model");
                 ("phrase_dump_filename", "%(phrase_model)s.tsv");
                 ("ratio", "50%%"); ("threshold", "50%");
                 ("scoring", "%(formula)s"); ("loop", "%(loop)s")])];
|}.

(** * Properties *)

(** ** The model on small inputs *)

Example split_on_ex : Py.split_on " " "a  b " = ["a"; ""; "b"; ""].
Proof. reflexivity. Qed.
Example split_ex : Py.split ("  a b" +:+ newline +:+ " c ") = ["a"; "b"; "c"].
Proof. reflexivity. Qed.
Example sorted_ex : Py.sorted Py.lower ["c"; "B"; "a"; "b"] = ["a"; "B"; "b"; "c"].
Proof. reflexivity. Qed.
Example collect_ex : collect_vocabs ["a b"; "B c"] = ["a"; "b"; "B"; "c"].
Proof. reflexivity. Qed.
Example map_synonyms_ex1 : _map_synonyms "foo bar" [("foo", "baz")] = Ok "baz bar".
Proof. reflexivity. Qed.
Example map_synonyms_ex2 : _map_synonyms "foobar" [("foo", "baz")] = Ok "foobar".
Proof. reflexivity. Qed.
Example map_synonyms_ex3 : _map_synonyms "a b c" [("a b", "x"); ("b c", "y")] = Ok "x c".
Proof. reflexivity. Qed.
Example map_synonyms_ex4 : _map_synonyms "ab" [("", "E"); ("ab", "X")] = Ok "EXE".
Proof. reflexivity. Qed.
Example map_synonyms_ex5 : _map_synonyms "x" [] = Raise (KeyError "").
Proof. reflexivity. Qed.
Example map_synonyms_ex6 : _map_synonyms "a b" prefix_table = Ok "x b".
Proof. reflexivity. Qed.
Example map_synonyms_ex7 : _map_synonyms "c++x c++ is" cpp_table = Ok "cppx c++ is".
Proof. reflexivity. Qed.

Example getstr_ex1 :
  getstr percent_config "phrase_model" "phrase" = Ok "/data/phrases.model".
Proof. reflexivity. Qed.
Example getstr_ex2 :
  getstr percent_config "phrase_dump_filename" "phrase" = Ok "/data/phrases.model.tsv".
Proof. reflexivity. Qed.
Example getstr_ex3 : getstr percent_config "ratio" "phrase" = Ok "50%".
Proof. reflexivity. Qed.
Example getstr_ex4 :
  getstr percent_config "threshold" "phrase"
  = Raise (InterpolationSyntaxError "threshold" "phrase").
Proof. reflexivity. Qed.
Example getstr_ex5 :
  getstr percent_config "scoring" "phrase"
  = Raise (InterpolationMissingOptionError "scoring" "phrase" "formula").
Proof. reflexivity. Qed.
Example getstr_ex6 :
  getstr percent_config "loop" "phrase"
  = Raise (InterpolationDepthError "loop" "phrase").
Proof. reflexivity. Qed.
Example getstr_ex7 : getstr percent_config "dir" "phrase" = Ok "/data".
Proof. reflexivity. Qed.
Example getstr_ex8 : getstr percent_config "dir" "filter" = Raise (KeyError "filter").
Proof. reflexivity. Qed.
Example getbool_ex : getbool percent_config "lower" "phrase"
                     = Raise (NoOptionError "lower" "phrase").
Proof. reflexivity. Qed.

(** ** Sorting and splitting *)

Section sorting.
Context (key : string → string).

Lemma insert_by_perm x l : Py.insert_by key x l ≡ₚ x :: l.
Proof.
  induction l as [|y l IH]; simpl; [done|].
  destruct (String.leb (key x) (key y)); [done|].
  rewrite IH. apply Permutation_swap.
Qed.

Lemma sorted_perm l : Py.sorted key l ≡ₚ l.
Proof.
  induction l as [|x l IH]; simpl; [done|].
  by rewrite insert_by_perm, IH.
Qed.

Lemma insert_by_hd x l a :
  key_le key a x → HdRel (key_le key) a l → HdRel (key_le key) a (Py.insert_by key x l).
Proof.
  intros Hax Hal. destruct l as [|y l]; simpl.
  - by constructor.
  - destruct (String.leb (key x) (key y)); constructor; [done|].
    by inversion Hal.
Qed.

Lemma insert_by_sorted x l :
  Sorted (key_le key) l → Sorted (key_le key) (Py.insert_by key x l).
Proof.
  induction 1 as [|y l Hl IH Hhd]; simpl.
  - by repeat constructor.
  - destruct (String.leb (key x) (key y)) eqn:Hxy.
    + constructor; [by constructor|]. constructor.
      unfold key_le, String.le. by rewrite Hxy.
    + constructor; [done|]. apply insert_by_hd; [|done].
      destruct (String.leb_total (key x) (key y)) as [Hle|Hle].
      * by rewrite Hle in Hxy.
      * unfold key_le, String.le. by rewrite Hle.
Qed.

Lemma sorted_sorted l : Sorted (key_le key) (Py.sorted key l).
Proof.
  induction l as [|x l IH]; simpl; [constructor|]. by apply insert_by_sorted.
Qed.
End sorting.

Lemma split_on_nonempty sep s : Py.split_on sep s ≠ [].
Proof.
  destruct s as [|c s]; simpl; [done|].
  destruct (decide (c = sep)); [done|]. by destruct (Py.split_on sep s).
Qed.

Lemma collect_vocabs_foldl acc pd_data :
  foldl (λ vocabs row, vocabs ++ Py.split_on " " row) acc pd_data
  = acc ++ collect_vocabs pd_data.
Proof.
  unfold collect_vocabs. revert acc.
  induction pd_data as [|row rows IH]; intros acc; simpl.
  - by rewrite app_nil_r.
  - rewrite (IH (_ ++ _)), (IH (Py.split_on _ _)). by rewrite app_assoc.
Qed.

Lemma collect_vocabs_cons row rows :
  collect_vocabs (row :: rows) = Py.split_on " " row ++ collect_vocabs rows.
Proof. unfold collect_vocabs at 1. simpl. apply collect_vocabs_foldl. Qed.

Lemma elem_of_collect_vocabs t pd_data :
  t ∈ collect_vocabs pd_data ↔ ∃ row, row ∈ pd_data ∧ t ∈ Py.split_on " " row.
Proof.
  induction pd_data as [|row rows IH].
  - split; [by intros ?%elem_of_nil|]. by intros (? & ?%elem_of_nil & _).
  - rewrite collect_vocabs_cons, elem_of_app, IH. split.
    + intros [Ht|(row' & Hin & Ht)].
      * exists row. split; [left|done].
      * exists row'. split; [by right|done].
    + intros (row' & [->|Hin]%elem_of_cons & Ht); [by left|].
      right. by exists row'.
Qed.

(** What every return value of [get_vocabs] satisfies. *)
Lemma get_vocabs_spec pd_data out :
  get_vocabs pd_data out →
  NoDup out
  ∧ (∀ t, t ∈ out ↔ ∃ row, row ∈ pd_data ∧ t ∈ Py.split_on " " row)
  ∧ Sorted (key_le Py.lower) out.
Proof.
  intros [uniq [Hnd Hin]]. split_and!.
  - by rewrite sorted_perm.
  - intros t. by rewrite sorted_perm, Hin, elem_of_collect_vocabs.
  - apply sorted_sorted.
Qed.

(** [get_vocabs] always has a return value. *)
Lemma get_vocabs_total pd_data : ∃ out, get_vocabs pd_data out.
Proof.
  exists (Py.sorted Py.lower (remove_dups (collect_vocabs pd_data))).
  constructor. split; [apply NoDup_remove_dups|].
  intros x. apply elem_of_remove_dups.
Qed.

(** ** The vocabulary *)

(** C1, as stated: [get_vocabs] does not return ["a"; "b"; "c"] for the
    processed strings ["a b"; "B c"], because "b" and "B" are different
    members of the set and both are returned. *)
Lemma get_vocabs_example_not_case_folded :
  ¬ get_vocabs ["a b"; "B c"] ["a"; "b"; "c"].
Proof.
  intros (_ & Hin & _)%get_vocabs_spec.
  assert (HB : "B" ∈ ["a"; "b"; "c"]).
  { apply Hin. exists "B c". split; [by right; left|]. by left. }
  by apply (bool_decide_pack _) in HB.
Qed.

(** C1, amended: for ["a b"; "B c"] the return values of [get_vocabs] are
    exactly ["a"; "b"; "B"; "c"] and ["a"; "B"; "b"; "c"].  In general the
    tokens are the fields of each string split at the space character,
    each distinct token is returned once with its case kept, and the
    result is sorted by the lower-cased token. *)
Theorem get_vocabs_case_sensitive :
  (∀ out, get_vocabs ["a b"; "B c"] out
          ↔ out = ["a"; "b"; "B"; "c"] ∨ out = ["a"; "B"; "b"; "c"])
  ∧ (∀ pd_data out, get_vocabs pd_data out →
       NoDup out
       ∧ (∀ t, t ∈ out ↔ ∃ row, row ∈ pd_data ∧ t ∈ Py.split_on " " row)
       ∧ Sorted (key_le Py.lower) out).
Proof.
  split; [|apply get_vocabs_spec].
  intros out. split.
  - intros [uniq [Hnd Hin]].
    assert (Hperm : ["a"; "b"; "B"; "c"] ≡ₚ uniq).
    { apply NoDup_Permutation; [|done|].
      - apply (bool_decide_unpack _). by vm_compute.
      - intros x. by rewrite Hin. }
    apply permutations_Permutation in Hperm.
    vm_compute permutations in Hperm.
    repeat (apply elem_of_cons in Hperm as [->|Hperm];
            [vm_compute; by auto|]).
    by apply elem_of_nil in Hperm.
  - intros [->| ->].
    + apply (get_vocabs_intro _ ["a"; "b"; "B"; "c"]). split.
      * apply (bool_decide_unpack _). by vm_compute.
      * done.
    + apply (get_vocabs_intro _ ["a"; "B"; "b"; "c"]). split.
      * apply (bool_decide_unpack _). by vm_compute.
      * intros x. change (collect_vocabs _) with ["a"; "b"; "B"; "c"].
        by rewrite (Permutation_swap "b" "B" ["c"]).
Qed.

Lemma get_vocabs_case_sensitive_witness :
  NoDup ["a"; "b"; "B"; "c"]
  ∧ (∀ t, t ∈ ["a"; "b"; "B"; "c"]
          ↔ ∃ row, row ∈ ["a b"; "B c"] ∧ t ∈ Py.split_on " " row)
  ∧ Sorted (key_le Py.lower) ["a"; "b"; "B"; "c"].
Proof.
  apply (proj2 get_vocabs_case_sensitive ["a b"; "B c"] ["a"; "b"; "B"; "c"]).
  apply (proj1 get_vocabs_case_sensitive). by left.
Defined.

(** C9: when a processed string is empty, [get_vocabs] has a return value
    and every return value contains the empty token. *)
Theorem get_vocabs_empty_token pd_data :
  "" ∈ pd_data →
  (∃ out, get_vocabs pd_data out) ∧ (∀ out, get_vocabs pd_data out → "" ∈ out).
Proof.
  intros Hin. split; [apply get_vocabs_total|].
  intros out (_ & Hout & _)%get_vocabs_spec.
  apply Hout. exists "". split; [done|]. by left.
Qed.

Lemma get_vocabs_empty_token_witness :
  (∃ out, get_vocabs ["a b"; ""] out)
  ∧ (∀ out, get_vocabs ["a b"; ""] out → "" ∈ out).
Proof. apply (get_vocabs_empty_token ["a b"; ""]). by right; left. Defined.

(** ** Stopwords *)

Lemma custom_stopwords_spec (base : gset string) (to_add_list to_remove_list : list string) :
  custom_stopwords base to_add_list to_remove_list
  = (base ∪ list_to_set to_add_list) ∖ list_to_set to_remove_list.
Proof.
  apply set_eq. intros x. unfold custom_stopwords.
  rewrite elem_of_list_to_set, list_elem_of_filter, elem_of_app, elem_of_elements.
  rewrite elem_of_difference, elem_of_union, !elem_of_list_to_set. tauto.
Qed.

(** C3: the stopword set is (B ∪ A) − R for every base set B, add-list A
    and remove-list R, so a word of both A and R is absent; and
    [_generate_custom_stopwords] returns that set for the default
    stopwords and the lines of the two files the configuration names. *)
Theorem generate_custom_stopwords_union_minus `{Library} :
  (∀ B A R,
     custom_stopwords B A R = (B ∪ list_to_set A) ∖ list_to_set R
     ∧ ∀ w, w ∈ A → w ∈ R → w ∉ custom_stopwords B A R)
  ∧ (∀ env section add_path add_text remove_path remove_text,
       getstr (configparser env) "stopwords_to_add" section = Ok add_path →
       read_text env add_path = Ok add_text →
       getstr (configparser env) "stopwords_to_remove" section = Ok remove_path →
       read_text env remove_path = Ok remove_text →
       _generate_custom_stopwords env section
       = Ok ((STOPWORDS ∪ list_to_set (splitlines add_text))
             ∖ list_to_set (splitlines remove_text))).
Proof.
  split.
  - intros B A R. split; [apply custom_stopwords_spec|].
    intros w _ HR. rewrite custom_stopwords_spec, elem_of_difference.
    rewrite elem_of_list_to_set. tauto.
  - intros env section pa ta pr tr Hpa Hta Hpr Htr.
    unfold _generate_custom_stopwords. rewrite Hpa. simpl. rewrite Hta. simpl.
    rewrite Hpr. simpl. rewrite Htr. simpl. by rewrite custom_stopwords_spec.
Qed.

Lemma generate_custom_stopwords_union_minus_witness :
  _generate_custom_stopwords (H:=plain_library) (sample_env []) "filter"
  = Ok ((@STOPWORDS plain_library
         ∪ list_to_set (splitlines ("cat" +:+ newline +:+ "meow" +:+ newline)))
        ∖ list_to_set (splitlines ("meow" +:+ newline +:+ "a"))).
Proof.
  apply (proj2 (generate_custom_stopwords_union_minus (H:=plain_library))
           (sample_env []) "filter" "add.txt" _ "remove.txt" _);
    reflexivity.
Defined.

Example splitlines_ex :
  splitlines ("cat" +:+ newline +:+ newline +:+ "meow" +:+ newline) = ["cat"; ""; "meow"].
Proof. reflexivity. Qed.

(** ** The empty synonym table *)

(** C8: with an empty table [_map_synonyms] raises [KeyError] for the
    empty key, whatever the text. *)
Theorem map_synonyms_empty_table_raises (text : string) :
  _map_synonyms text [] = Raise (KeyError "").
Proof. by destruct text. Qed.

(** ** Stopword removal *)

Lemma app_empty_r (s : string) : s +:+ "" = s.
Proof. induction s as [|c s IH]; [done|]. by rewrite <-IH at 2. Qed.

Lemma split_is_token (s : string) : Forall is_token (Py.split s).
Proof.
  induction s as [|c s IH]; simpl; [constructor|].
  destruct (Py.isspace c) eqn:Hc; [done|].
  destruct (Py.run_follows s).
  - destruct (Py.split s) as [|run runs].
    + repeat constructor; [done|]. simpl. by rewrite Hc.
    + inversion IH as [|?? [_ Hrun] Hruns]; subst.
      constructor; [|done]. split; [done|]. simpl. by rewrite Hc.
  - constructor; [|done]. split; [done|]. simpl. by rewrite Hc.
Qed.

(** A token in front of a break is split off as it is. *)
Lemma split_token_app (t s : string) :
  is_token t → Py.run_follows s = false → Py.split (t +:+ s) = t :: Py.split s.
Proof.
  intros [Hne Hall] Hs. induction t as [|c t IH]; [done|].
  simpl in Hall. apply andb_true_iff in Hall as [Hc Hall].
  apply negb_true_iff in Hc.
  change (String c t +:+ s) with (String c (t +:+ s)). simpl. rewrite Hc.
  destruct t as [|d t].
  - change ("" +:+ s) with s. by rewrite Hs.
  - rewrite IH by done.
    change (String d t +:+ s) with (String d (t +:+ s)). simpl.
    simpl in Hall. apply andb_true_iff in Hall as [Hd _]. by rewrite Hd.
Qed.

Lemma split_join (tokens : list string) :
  Forall is_token tokens → Py.split (Py.join " " tokens) = tokens.
Proof.
  induction 1 as [|t tokens Ht Htokens IH]; [done|].
  destruct tokens as [|t' tokens].
  - simpl. rewrite <-(app_empty_r t) at 1. by rewrite split_token_app.
  - change (Py.join " " (t :: t' :: tokens))
      with (t +:+ String " " (Py.join " " (t' :: tokens))).
    rewrite split_token_app by done.
    change (Py.split (String " " ?s)) with (Py.split s). by rewrite IH.
Qed.

Lemma filter_is_token (P : string → Prop) `{!∀ x, Decision (P x)} (l : list string) :
  Forall is_token l → Forall is_token (filter P l).
Proof.
  rewrite !Forall_forall. intros Hl x [_ Hx]%list_elem_of_filter. by apply Hl.
Qed.

Lemma collapse_token_app (t s : string) (in_run : bool) :
  is_token t →
  Gpp.sub_runs Py.isspace " " in_run (t +:+ s)
  = t +:+ Gpp.sub_runs Py.isspace " " false s.
Proof.
  intros [Hne Hall]. revert in_run. induction t as [|c t IH]; [done|].
  intros in_run. simpl in Hall. apply andb_true_iff in Hall as [Hc Hall].
  apply negb_true_iff in Hc.
  change (String c t +:+ ?u) with (String c (t +:+ u)). simpl. rewrite Hc.
  f_equal. destruct t as [|d t]; [done|]. by apply IH.
Qed.

Lemma collapse_join (tokens : list string) (in_run : bool) :
  Forall is_token tokens →
  Gpp.sub_runs Py.isspace " " in_run (Py.join " " tokens) = Py.join " " tokens.
Proof.
  intros Htokens. revert in_run.
  induction Htokens as [|t tokens Ht Htokens IH]; [done|]. intros in_run.
  destruct tokens as [|t' tokens].
  - simpl. rewrite <-(app_empty_r t) at 1. rewrite collapse_token_app by done.
    apply app_empty_r.
  - change (Py.join " " (t :: t' :: tokens))
      with (t +:+ String " " (Py.join " " (t' :: tokens))).
    rewrite collapse_token_app by done. f_equal.
    change (Gpp.sub_runs Py.isspace " " false (String " " ?u))
      with (String " " (Gpp.sub_runs Py.isspace " " true u)).
    by rewrite IH.
Qed.

Lemma token_first_char (t s : string) : is_token t → no_space_at (first_char (t +:+ s)).
Proof.
  intros [Hne Hall]. destruct t as [|c t]; [done|].
  simpl in Hall. apply andb_true_iff in Hall as [Hc _].
  by apply negb_true_iff in Hc.
Qed.

Lemma last_char_app (s t : string) :
  t ≠ "" → last_char (s +:+ t) = last_char t.
Proof.
  intros Ht. induction s as [|c s IH]; [done|].
  change (String c s +:+ t) with (String c (s +:+ t)). simpl. rewrite IH.
  destruct s; [by destruct t|done].
Qed.

Lemma token_last_char (t : string) : is_token t → no_space_at (last_char t).
Proof.
  intros [Hne Hall]. induction t as [|c t IH]; [done|].
  simpl in Hall. apply andb_true_iff in Hall as [Hc Hall].
  destruct t as [|d t]; [by apply negb_true_iff in Hc|]. by apply IH.
Qed.

Lemma join_ends (tokens : list string) :
  Forall is_token tokens →
  no_space_at (first_char (Py.join " " tokens))
  ∧ no_space_at (last_char (Py.join " " tokens)).
Proof.
  induction 1 as [|t tokens Ht Htokens [_ IH]]; [done|].
  destruct tokens as [|t' tokens].
  - split; [|by apply token_last_char].
    simpl. rewrite <-(app_empty_r t). by apply token_first_char.
  - change (Py.join " " (t :: t' :: tokens))
      with (t +:+ String " " (Py.join " " (t' :: tokens))).
    split; [by apply token_first_char|].
    rewrite last_char_app by done.
    destruct (Py.join " " (t' :: tokens)) eqn:Hj; [|done].
    exfalso. inversion Htokens as [|?? [Hne _] _]; subst. simpl in Hj.
    destruct tokens; [done|]. by destruct t'.
Qed.

(** C10: [_custom_remove_stopwords] returns the surviving tokens joined by
    single spaces.  Its output splits into exactly those tokens; it is
    left unchanged by splitting at whitespace and joining with one space
    and by the whitespace-collapse filter, and it neither starts nor ends
    with whitespace.  So every run of whitespace of the input has become
    one space and none is left at either end, whatever the configuration
    says about collapsing whitespace, and also when no word is a
    stopword. *)
Theorem custom_remove_stopwords_single_spaced (s : string) (stopwords : gset string) :
  let out := _custom_remove_stopwords s stopwords in
  Py.split out = filter (λ w, w ∉ stopwords) (Py.split s)
  ∧ Py.join " " (Py.split out) = out
  ∧ Gpp.strip_multiple_whitespaces out = out
  ∧ no_space_at (first_char out) ∧ no_space_at (last_char out)
  ∧ _custom_remove_stopwords s ∅ = Py.join " " (Py.split s)
  ∧ _custom_remove_stopwords ("  a " +:+ newline +:+ " the  b ") {["the"]} = "a b".
Proof.
  assert (Htokens : Forall is_token (filter (λ w, w ∉ stopwords) (Py.split s))).
  { apply filter_is_token, split_is_token. }
  assert (Hsplit : Py.split (_custom_remove_stopwords s stopwords)
                   = filter (λ w, w ∉ stopwords) (Py.split s)).
  { by apply split_join. }
  simpl. split_and!; [done| | | | | |].
  - by rewrite Hsplit.
  - by apply collapse_join.
  - by apply join_ends.
  - by apply join_ends.
  - unfold _custom_remove_stopwords. f_equal. clear Hsplit Htokens.
    induction (Py.split s) as [|w l IH]; [done|].
    rewrite filter_cons_True by apply not_elem_of_empty. by rewrite IH.
  - by vm_compute.
Qed.

(** ** The filter chain *)

Lemma assoc_Some {V : Type} (key : string) (v : V) (l : list (string * V)) :
  NoDup l.*1 → assoc key l = Some v ↔ (key, v) ∈ l.
Proof.
  induction l as [|[k w] l IH]; simpl; intros Hnd.
  - split; [done|]. by intros ?%elem_of_nil.
  - apply NoDup_cons in Hnd as [Hk Hnd]. rewrite elem_of_cons, <-IH by done.
    destruct (decide (k = key)) as [->|Hne].
    + split; [intros [= ->]; by left|]. intros [[= ->]|Hin]; [done|].
      exfalso. apply Hk. apply IH in Hin; [|done].
      apply list_elem_of_fmap. by exists (key, v).
    + split; [by right|]. by intros [[= ? ?]|?].
Qed.

Lemma assoc_perm {V : Type} (key : string) (l l' : list (string * V)) :
  NoDup l.*1 → l ≡ₚ l' → assoc key l = assoc key l'.
Proof.
  intros Hnd Hperm. apply option_eq. intros v.
  rewrite !assoc_Some; [by rewrite Hperm|by rewrite <-Hperm|done].
Qed.

Lemma section_dict_reordered (cfg cfg' : ConfigParser) (section key : string) :
  reordered cfg cfg' →
  (λ opts, Config.unified cfg opts key) <$> Config.section_dict cfg section
  = (λ opts, Config.unified cfg' opts key) <$> Config.section_dict cfg' section.
Proof.
  intros (Hnd & Hdef & Hsec). unfold Config.section_dict, Config.unified.
  destruct (decide (section = "DEFAULT")); simpl.
  - f_equal. by apply assoc_perm.
  - induction Hsec as [|[name opts] [name' opts'] l l' (Hname & Hnd' & Hperm) _ IH];
      simpl in *; [done|]. subst name'.
    destruct (decide (name = section)); [|done]. simpl. f_equal.
    rewrite (assoc_perm key opts opts') by done.
    by rewrite (assoc_perm key (defaults cfg) (defaults cfg')).
Qed.

Lemma unified_reordered (cfg cfg' : ConfigParser) (section : string) :
  reordered cfg cfg' →
  match Config.section_dict cfg section, Config.section_dict cfg' section with
  | Some opts, Some opts' =>
      ∀ key, Config.unified cfg opts key = Config.unified cfg' opts' key
  | None, None => True
  | _, _ => False
  end.
Proof.
  intros Hr. pose proof (λ key, section_dict_reordered _ _ section key Hr) as Heq.
  destruct (Config.section_dict cfg section) as [opts|],
    (Config.section_dict cfg' section) as [opts'|].
  - intros key. specialize (Heq key). by injection Heq.
  - by specialize (Heq "").
  - by specialize (Heq "").
  - exact I.
Qed.

Lemma interpolate_some_cons lookup key section levels state c rest :
  Config._interpolate_some lookup key section (S levels) state (String c rest)
  = let scan := Config._interpolate_some lookup key section (S levels) in
    match state with
    | Config.Plain =>
        if bool_decide (c = "%"%char) then scan Config.Percent rest
        else String c <$> scan Config.Plain rest
    | Config.Percent =>
        if bool_decide (c = "%"%char) then String c <$> scan Config.Plain rest
        else if bool_decide (c = "("%char) then scan (Config.Name "") rest
        else Raise (InterpolationSyntaxError key section)
    | Config.Name var =>
        if bool_decide (c = ")"%char)
        then if bool_decide (var = "")
             then Raise (InterpolationSyntaxError key section)
             else scan (Config.Closed var) rest
        else scan (Config.Name (var +:+ String c "")) rest
    | Config.Closed var =>
        if bool_decide (c = "s"%char)
        then match lookup var with
             | None => Raise (InterpolationMissingOptionError key section var)
             | Some v =>
                 expansion ←
                   (if Config.contains "%" v
                    then Config._interpolate_some lookup key section levels
                           Config.Plain v
                    else Ok v);
                 tail ← scan Config.Plain rest;
                 Ok (expansion +:+ tail)
             end
        else Raise (InterpolationSyntaxError key section)
    end.
Proof. reflexivity. Qed.

(** The interpolation depends on the options only through their values. *)
Lemma interpolate_some_ext (lookup lookup' : string → option string)
    key section levels state rest :
  (∀ name, lookup name = lookup' name) →
  Config._interpolate_some lookup key section levels state rest
  = Config._interpolate_some lookup' key section levels state rest.
Proof.
  intros Hext. revert state rest. induction levels as [|levels IH]; [done|].
  intros state rest. revert state. induction rest as [|c rest IHrest]; intros state.
  { by destruct state. }
  rewrite !interpolate_some_cons. cbv zeta.
  destruct state as [| |var|var]; rewrite ?IHrest; [done..|].
  rewrite <-Hext. destruct (lookup var) as [v|]; [|done]. by rewrite IH.
Qed.

Lemma get_reordered cfg cfg' section key :
  reordered cfg cfg' → Config.get cfg' section key = Config.get cfg section key.
Proof.
  intros Hr%(unified_reordered _ _ section). unfold Config.get.
  destruct (Config.section_dict cfg section) as [opts|],
    (Config.section_dict cfg' section) as [opts'|]; [|by destruct Hr..|reflexivity].
  rewrite <-Hr. destruct (Config.unified cfg opts key) as [v|]; [|reflexivity].
  symmetry. by apply interpolate_some_ext.
Qed.

Lemma getstr_reordered cfg cfg' key section :
  reordered cfg cfg' → getstr cfg' key section = getstr cfg key section.
Proof.
  intros Hr%(unified_reordered _ _ section). unfold getstr.
  destruct (Config.section_dict cfg section) as [opts|],
    (Config.section_dict cfg' section) as [opts'|]; [|by destruct Hr..|reflexivity].
  rewrite <-Hr. destruct (Config.unified cfg opts key) as [v|]; [|reflexivity].
  symmetry. by apply interpolate_some_ext.
Qed.

Lemma getbool_reordered cfg cfg' key section :
  reordered cfg cfg' → getbool cfg' key section = getbool cfg key section.
Proof. intros Hr. unfold getbool. by rewrite (get_reordered _ _ _ _ Hr). Qed.

Lemma getint_reordered cfg cfg' key section :
  reordered cfg cfg' → getint cfg' key section = getint cfg key section.
Proof. intros Hr. unfold getint. by rewrite (get_reordered _ _ _ _ Hr). Qed.

Section chain.
Context `{Library}.

Lemma build_reordered (env : environment) (cfg' : ConfigParser) (section : string) :
  reordered (configparser env) cfg' →
  _build_custom_filter_list (with_config env cfg') section
  = _build_custom_filter_list env section.
Proof.
  intros Hr.
  unfold _build_custom_filter_list, append_if, _load_synonym_map,
    _generate_custom_stopwords. simpl.
  repeat rewrite (getbool_reordered _ _ _ _ Hr).
  repeat rewrite (getstr_reordered _ _ _ _ Hr).
  by repeat rewrite (getint_reordered _ _ _ _ Hr).
Qed.

Lemma append_if_enabled cfg key section make custom_filters (f : custom_filter) :
  getbool cfg key section = Ok true → make = Ok f →
  append_if cfg key section make custom_filters = Ok (custom_filters ++ [f]).
Proof. intros Hb ->. unfold append_if. by rewrite Hb. Qed.

Lemma append_if_disabled cfg key section make (custom_filters : list custom_filter) :
  getbool cfg key section = Ok false →
  append_if cfg key section make custom_filters = Ok custom_filters.
Proof. intros Hb. unfold append_if. by rewrite Hb. Qed.

(** One block of the builder: the chain grows by the step when its flag
    is on and stays as it is when the flag is off. *)
Lemma append_if_step cfg key section make custom_filters (b : bool) (st : step) :
  getbool cfg key section = Ok b →
  (b → ∃ f, make = Ok f ∧ step_of f = st) →
  ∃ custom_filters',
    append_if cfg key section make custom_filters = Ok custom_filters'
    ∧ step_of <$> custom_filters'
      = (step_of <$> custom_filters) ++ (if b then [st] else []).
Proof.
  intros Hb Hmake. destruct b.
  - destruct Hmake as (f & Hf & <-); [done|].
    exists (custom_filters ++ [f]). split; [by apply append_if_enabled|].
    by rewrite fmap_app.
  - exists custom_filters. split; [by apply append_if_disabled|].
    by rewrite app_nil_r.
Qed.

(** C2: for every setting of the eight flags the builder returns the
    enabled steps, and only those, in the order lowercase, synonym
    mapping, punctuation, whitespace, numeric, stopwords, short words,
    lemmatize; writing the options of the configuration in another
    order gives the same chain. *)
Theorem build_custom_filter_list_canonical
    (env : environment) (section : string) (enabled : step → bool) :
  (∀ s, getbool (configparser env) (flag s) section = Ok (enabled s)) →
  (enabled map_synonym_step → ∃ t, _load_synonym_map env section = Ok t) →
  (enabled remove_stopwords_step →
     ∃ stopwords, _generate_custom_stopwords env section = Ok stopwords) →
  (enabled strip_short_step →
     ∃ n, getint (configparser env) "strip_short_minsize" section = Ok n) →
  ∃ custom_filters,
    _build_custom_filter_list env section = Ok custom_filters
    ∧ step_of <$> custom_filters = filter (λ s, enabled s) canonical_order
    ∧ ∀ cfg', reordered (configparser env) cfg' →
        _build_custom_filter_list (with_config env cfg') section
        = Ok custom_filters.
Proof.
  intros Hflags Hsyn Hstop Hshort.
  assert (∃ custom_filters,
    _build_custom_filter_list env section = Ok custom_filters
    ∧ step_of <$> custom_filters = filter (λ s, enabled s) canonical_order)
    as (custom_filters & Hbuild & Hsteps).
  { unfold _build_custom_filter_list. cbv zeta.
    edestruct (append_if_step (configparser env) "lower" section (Ok Lower) [])
      as (fs1 & Hfs1 & H1); [apply (Hflags lower_step)|by eexists|].
    edestruct (append_if_step (configparser env) "map_synonym" section
                 (MapSynonyms <$> _load_synonym_map env section) fs1
                 (enabled map_synonym_step) map_synonym_step)
      as (fs2 & Hfs2 & H2); [apply (Hflags map_synonym_step)| |].
    { intros [t ->]%Hsyn. eexists. split; reflexivity. }
    edestruct (append_if_step (configparser env) "strip_punctuation" section
                 (Ok StripPunctuation) fs2)
      as (fs3 & Hfs3 & H3); [apply (Hflags strip_punctuation_step)|by eexists|].
    edestruct (append_if_step (configparser env) "strip_multiple_whitespaces"
                 section (Ok StripMultipleWhitespaces) fs3)
      as (fs4 & Hfs4 & H4);
      [apply (Hflags strip_multiple_whitespaces_step)|by eexists|].
    edestruct (append_if_step (configparser env) "strip_numeric" section
                 (Ok StripNumeric) fs4)
      as (fs5 & Hfs5 & H5); [apply (Hflags strip_numeric_step)|by eexists|].
    edestruct (append_if_step (configparser env) "remove_stopwords" section
                 (RemoveStopwords <$> _generate_custom_stopwords env section) fs5
                 (enabled remove_stopwords_step) remove_stopwords_step)
      as (fs6 & Hfs6 & H6); [apply (Hflags remove_stopwords_step)| |].
    { intros [stopwords ->]%Hstop. eexists. split; reflexivity. }
    edestruct (append_if_step (configparser env) "strip_short" section
                 (StripShort <$> getint (configparser env)
                                   "strip_short_minsize" section) fs6
                 (enabled strip_short_step) strip_short_step)
      as (fs7 & Hfs7 & H7); [apply (Hflags strip_short_step)| |].
    { intros [n ->]%Hshort. eexists. split; reflexivity. }
    edestruct (append_if_step (configparser env) "lemmatize" section
                 (Ok Lemmatize) fs7)
      as (fs8 & Hfs8 & H8); [apply (Hflags lemmatize_step)|by eexists|].
    exists fs8. split.
    { rewrite Hfs1. simpl. rewrite Hfs2. simpl. rewrite Hfs3. simpl.
      rewrite Hfs4. simpl. rewrite Hfs5. simpl. rewrite Hfs6. simpl.
      rewrite Hfs7. simpl. by rewrite Hfs8. }
    rewrite H8, H7, H6, H5, H4, H3, H2, H1. clear.
    unfold canonical_order. rewrite !filter_cons, filter_nil.
    by destruct (enabled lower_step), (enabled map_synonym_step),
      (enabled strip_punctuation_step),
      (enabled strip_multiple_whitespaces_step), (enabled strip_numeric_step),
      (enabled remove_stopwords_step), (enabled strip_short_step),
      (enabled lemmatize_step). }
  exists custom_filters. split_and!; [done..|].
  intros cfg' Hr. by rewrite build_reordered.
Qed.
End chain.

Lemma build_custom_filter_list_canonical_witness :
  ∃ custom_filters,
    _build_custom_filter_list (H:=plain_library) (sample_env scrambled_flags) "filter"
    = Ok custom_filters
    ∧ step_of (H:=plain_library) <$> custom_filters
      = filter (λ s, scrambled_enabled s) canonical_order
    ∧ ∀ cfg',
        reordered (configparser (sample_env (H:=plain_library) scrambled_flags)) cfg' →
        _build_custom_filter_list (H:=plain_library)
          (with_config (sample_env scrambled_flags) cfg') "filter"
        = Ok custom_filters.
Proof.
  apply (build_custom_filter_list_canonical (H:=plain_library)
           (sample_env scrambled_flags) "filter" scrambled_enabled).
  - intros s. by destruct s.
  - intros _. by eexists.
  - intros _. by eexists.
  - intros _. by eexists.
Defined.

Example build_custom_filter_list_ex :
  _build_custom_filter_list (H:=plain_library) (sample_env scrambled_flags) "filter"
  = Ok [Lower; MapSynonyms [("kitty", "cat")]; StripPunctuation;
        RemoveStopwords (custom_stopwords (@STOPWORDS plain_library)
                           ["cat"; "meow"] ["meow"; "a"]);
        StripShort 3].
Proof. reflexivity. Qed.

(** ** Phrase generation and the whole column *)

Section column.
Context `{Library}.

(** The guard at the head of [_generate_phrase]. *)
Lemma generate_phrase_guard (env : environment) (pd_data : list (list string))
    (load_model : bool) (section : string) (tr : list event) :
  getbool (configparser env) "generate_phrase" section = Ok false →
  _generate_phrase env pd_data load_model section tr = (Ok pd_data, tr).
Proof. intros Hoff. unfold _generate_phrase, io_bind, lift. by rewrite Hoff. Qed.

(** C7: with [generate_phrase] off, [_generate_phrase] returns the
    sequences it was given, in load mode and in train mode alike, and
    leaves the trace as it was: no model is loaded, trained or saved and
    no phrase is dumped. *)
Theorem generate_phrase_disabled (env : environment)
    (pd_data : list (list string)) (section : string) (tr : list event) :
  getbool (configparser env) "generate_phrase" section = Ok false →
  _generate_phrase env pd_data true section tr = (Ok pd_data, tr)
  ∧ _generate_phrase env pd_data false section tr = (Ok pd_data, tr).
Proof. intros Hoff. split; by apply generate_phrase_guard. Qed.

Lemma series_apply_Forall2 {A B : Type} (f : A → result B) (l : list A) (ys : list B) :
  series_apply f l = Ok ys ↔ Forall2 (λ x y, f x = Ok y) l ys.
Proof.
  revert ys. induction l as [|x l IH]; intros ys; simpl.
  - split; [by intros [= <-]|]. by intros ->%Forall2_nil_inv_l.
  - split.
    + destruct (f x) as [y|] eqn:Hx; [|done]. simpl.
      destruct (series_apply f l) as [ys'|] eqn:Hl; [|done]. simpl.
      intros [= <-]. constructor; [done|]. by apply IH.
    + intros (y & ys' & Hy & Hys & ->)%Forall2_cons_inv_l.
      rewrite Hy. simpl. apply IH in Hys. by rewrite Hys.
Qed.

Lemma series_apply_raises {A B : Type} (f : A → result B) (l : list A) (x : A) (e : exn) :
  x ∈ l → f x = Raise e → ∃ e', series_apply f l = Raise e'.
Proof.
  intros Hx Hfx. induction l as [|x' l IH]; [by apply elem_of_nil in Hx|].
  simpl. apply elem_of_cons in Hx as [<-|Hx].
  - rewrite Hfx. by eexists.
  - destruct (f x'); [|by eexists]. simpl.
    destruct (IH Hx) as [e' ->]. by eexists.
Qed.

Lemma generate_phrase_pointwise env pd_data load_model section tr out tr' :
  _generate_phrase env pd_data load_model section tr = (Ok out, tr') →
  ∃ model, phrase_step model ∧ out = model <$> pd_data.
Proof.
  unfold _generate_phrase, io_bind, lift, emit, io_ret.
  destruct (getbool _ "generate_phrase" _) as [[]|]; simpl; [| |done].
  - destruct load_model.
    + destruct (getstr _ "phrase_model" _); [|done].
      destruct (Phraser_load _ _) as [m|]; [|done].
      intros [= <- _]. exists (getitem m). split; [constructor|done].
    + destruct (getint _ "min_count" _); [|done].
      destruct (getfloat _ "threshold" _); [|done].
      destruct (getint _ "max_vocab_size" _); [|done].
      destruct (getint _ "progress_per" _); [|done].
      destruct (getstr _ "scoring" _); [|done].
      destruct (Phrases _ _ _ _ _ _) as [m|]; [|done].
      destruct (getstr _ "phrase_model" _); [|done].
      destruct (getstr _ "phrase_dump_filename" _); [|done].
      intros [= <- _]. exists (getitem m). split; [constructor|done].
  - intros [= <- _]. exists id. split; [constructor|]. by rewrite list_fmap_id.
Qed.

(** What a return value of [preprocess_column] is made of. *)
Lemma preprocess_column_inv env pd_data load_model tr out tr' :
  preprocess_column env pd_data load_model tr = (Ok out, tr') →
  ∃ custom_filters model,
    _build_custom_filter_list env "filter" = Ok custom_filters
    ∧ phrase_step model
    ∧ Forall2 (λ x o, ∃ tokens, preprocess_string x custom_filters = Ok tokens
                                ∧ o = Py.join " " (model tokens)) pd_data out.
Proof.
  unfold preprocess_column, io_bind, lift, io_ret.
  destruct (_build_custom_filter_list env "filter") as [fs|]; [|done].
  destruct (series_apply _ pd_data) as [sentences|] eqn:Hs; [|done].
  destruct (_generate_phrase _ _ _ _ _) as [[phrased|] tr''] eqn:Hp; [|done].
  intros [= <- <-]. apply generate_phrase_pointwise in Hp as (model & Hm & ->).
  exists fs, model. split_and!; [done..|].
  apply series_apply_Forall2 in Hs. rewrite <-list_fmap_compose.
  apply Forall2_fmap_r. eapply Forall2_impl; [done|].
  intros x tokens Hx. by exists tokens.
Qed.

(** C6: a return value of [preprocess_column] has the length of the
    input, and its string at each position is made from the record at
    that position: the chain applied to the record, the phrase step
    applied to the tokens, the tokens joined.  The call returns whenever
    the chain is built, every record passes the chain and phrase
    generation is off. *)
Theorem preprocess_column_same_length_and_order
    (env : environment) (pd_data : list cell) (load_model : bool)
    (tr : list event) :
  (∀ out tr',
     preprocess_column env pd_data load_model tr = (Ok out, tr') →
     length out = length pd_data
     ∧ ∃ custom_filters model,
         _build_custom_filter_list env "filter" = Ok custom_filters
         ∧ phrase_step model
         ∧ ∀ i x, pd_data !! i = Some x →
             ∃ tokens, preprocess_string x custom_filters = Ok tokens
                       ∧ out !! i = Some (Py.join " " (model tokens)))
  ∧ (∀ custom_filters,
       _build_custom_filter_list env "filter" = Ok custom_filters →
       Forall (λ x, ∃ tokens, preprocess_string x custom_filters = Ok tokens)
         pd_data →
       getbool (configparser env) "generate_phrase" "phrase" = Ok false →
       ∃ out, preprocess_column env pd_data load_model tr = (Ok out, tr)).
Proof.
  split.
  - intros out tr' (fs & model & Hfs & Hmodel & Hall)%preprocess_column_inv.
    split; [symmetry; by eapply Forall2_length|].
    exists fs, model. split_and!; [done..|]. intros i x Hx.
    destruct (Forall2_lookup_l _ _ _ _ _ Hall Hx) as (o & Ho & tokens & Ht & ->).
    by exists tokens.
  - intros fs Hfs Hall Hoff.
    assert (∃ sentences,
      series_apply (λ x, preprocess_string x fs) pd_data = Ok sentences)
      as [sentences Hs].
    { clear -Hall. induction Hall as [|x l [tokens Hx] _ [ys IH]]; simpl.
      - by eexists.
      - rewrite Hx, IH. by eexists. }
    exists (Py.join " " <$> sentences).
    unfold preprocess_column, io_bind, lift, io_ret. rewrite Hfs, Hs.
    by rewrite generate_phrase_guard.
Qed.

Lemma match_first_whole_word_empty (keys : list string) (must_advance : bool) :
  Re.match_first (Re.whole_word <$> keys) must_advance None "" = None.
Proof. by induction keys. Qed.

Lemma map_synonyms_empty_text (table : synonym_table) (out : string) :
  _map_synonyms "" table = Ok out → out = "".
Proof.
  unfold _map_synonyms, Re.sub. simpl. unfold Re.replace_at.
  destruct table as [|kv table]; [done|].
  change (Re.alternation (Re.whole_word <$> (kv :: table).*1))
    with (Re.whole_word <$> (kv :: table).*1).
  rewrite match_first_whole_word_empty. simpl. by intros [= <-].
Qed.

(** Every step of the chain leaves the empty text empty, if the
    lemmatizer finds no token in it. *)
Lemma call_filter_empty (f : custom_filter) (out : string) :
  lemmatize "" = Ok [] → call_filter f "" = Ok out → out = "".
Proof.
  intros Hlem. destruct f; simpl; try by intros [= <-].
  - apply map_synonyms_empty_text.
  - unfold _custom_lemmatize. rewrite Hlem. simpl. by intros [= <-].
Qed.

Lemma preprocess_string_empty (custom_filters : list custom_filter) (tokens : list string) :
  lemmatize "" = Ok [] →
  preprocess_string (Str "") custom_filters = Ok tokens → tokens = [].
Proof.
  intros Hlem. unfold preprocess_string. simpl.
  assert (∀ r, (∀ s, r = Ok s → s = "") →
            ∀ s, foldl (λ s f, s ≫= call_filter f) r custom_filters = Ok s →
                 s = "") as Hchain.
  { induction custom_filters as [|f fs IH]; intros r Hr s; simpl; [apply Hr|].
    apply IH. intros s'. destruct r as [s0|]; [|done]. simpl.
    rewrite (Hr s0 eq_refl). by apply call_filter_empty. }
  destruct (foldl _ _ custom_filters) as [s|] eqn:Hs; [|done]. simpl.
  apply Hchain in Hs; [|by intros ? [= <-]]. subst s. by intros [= <-].
Qed.

(** C5, amended: a missing value makes [preprocess_column] raise, so
    that nothing is returned for any record and the trace is left as it
    was.  An empty string does not: whenever the call returns, the
    string at that position is empty, provided the lemmatizer and the
    phrase models make no token out of none, and every position holds
    what its own record gives. *)
Theorem preprocess_column_missing_or_empty
    (env : environment) (pd_data : list cell) (load_model : bool)
    (tr : list event) :
  (Missing ∈ pd_data →
     ∃ e, preprocess_column env pd_data load_model tr = (Raise e, tr))
  ∧ (∀ out tr' i,
       lemmatize "" = Ok [] →
       (∀ model, getitem model [] = []) →
       preprocess_column env pd_data load_model tr = (Ok out, tr') →
       pd_data !! i = Some (Str "") →
       out !! i = Some ""
       ∧ ∃ custom_filters model,
           phrase_step model
           ∧ ∀ j x, pd_data !! j = Some x →
               ∃ tokens, preprocess_string x custom_filters = Ok tokens
                         ∧ out !! j = Some (Py.join " " (model tokens))).
Proof.
  split.
  - intros Hin. unfold preprocess_column, io_bind, lift.
    destruct (_build_custom_filter_list env "filter") as [fs|]; [|by eexists].
    destruct (series_apply_raises (λ x, preprocess_string x fs) pd_data
                Missing TypeError Hin eq_refl) as [e ->].
    by eexists.
  - intros out tr' i Hlem Hget (fs & model & Hfs & Hmodel & Hall)%preprocess_column_inv Hi.
    assert (Hpoint : ∀ j x, pd_data !! j = Some x →
              ∃ tokens, preprocess_string x fs = Ok tokens
                        ∧ out !! j = Some (Py.join " " (model tokens))).
    { intros j x Hx.
      destruct (Forall2_lookup_l _ _ _ _ _ Hall Hx) as (o & Ho & tokens & Ht & ->).
      by exists tokens. }
    split; [|by exists fs, model].
    destruct (Hpoint i _ Hi) as (tokens & Ht & ->).
    apply preprocess_string_empty in Ht as ->; [|done].
    destruct Hmodel as [|m]; [done|]. by rewrite Hget.
Qed.
End column.

Example preprocess_column_ex :
  preprocess_column (H:=plain_library) (sample_env scrambled_flags)
    column_with_empty false []
  = (Ok ["sat"; ""; "cats meow loudly"], []).
Proof. by vm_compute. Qed.

Lemma generate_phrase_disabled_witness :
  _generate_phrase (H:=plain_library) (sample_env []) [["cats"; "sat"]; []]
    true "phrase" []
  = (Ok [["cats"; "sat"]; []], [])
  ∧ _generate_phrase (H:=plain_library) (sample_env []) [["cats"; "sat"]; []]
      false "phrase" []
    = (Ok [["cats"; "sat"]; []], []).
Proof. apply (generate_phrase_disabled (H:=plain_library)). reflexivity. Defined.

Lemma preprocess_column_same_length_and_order_witness :
  length ["sat"; ""; "cats meow loudly"] = length column_with_empty
  ∧ ∃ custom_filters model,
      _build_custom_filter_list (H:=plain_library) (sample_env scrambled_flags)
        "filter" = Ok custom_filters
      ∧ phrase_step (H:=plain_library) model
      ∧ ∀ (i : nat) x, column_with_empty !! i = Some x →
          ∃ tokens,
            preprocess_string (H:=plain_library) x custom_filters = Ok tokens
            ∧ ["sat"; ""; "cats meow loudly"] !! i
              = Some (Py.join " " (model tokens)).
Proof.
  apply (proj1 (preprocess_column_same_length_and_order (H:=plain_library)
                  (sample_env scrambled_flags) column_with_empty false [])
           ["sat"; ""; "cats meow loudly"] []).
  by vm_compute.
Defined.

(** C5, as stated: with a missing value in the column [preprocess_column]
    returns nothing at all, so there is no empty result at the position
    of the missing value and no result for the other records either. *)
Lemma preprocess_column_missing_aborts :
  ¬ ∃ out tr',
      preprocess_column (H:=plain_library) (sample_env scrambled_flags)
        column_with_missing false [] = (Ok out, tr').
Proof. intros (out & tr' & Hout). vm_compute in Hout. discriminate Hout. Qed.

Lemma preprocess_column_missing_or_empty_witness :
  (∃ e, preprocess_column (H:=plain_library) (sample_env scrambled_flags)
          column_with_missing false [] = (Raise e, []))
  ∧ ["sat"; ""; "cats meow loudly"] !! 1%nat = Some "".
Proof.
  split.
  - apply (proj1 (preprocess_column_missing_or_empty (H:=plain_library)
                    (sample_env scrambled_flags) column_with_missing false [])).
    by right; left.
  - apply (proj2 (preprocess_column_missing_or_empty (H:=plain_library)
                    (sample_env scrambled_flags) column_with_empty false [])
             ["sat"; ""; "cats meow loudly"] [] 1%nat); reflexivity.
Defined.

(** ** Synonyms *)

Lemma app_cons (c : ascii) (s t : string) : String c s +:+ t = String c (s +:+ t).
Proof. reflexivity. Qed.

Lemma str_app_assoc (a b c : string) : (a +:+ b) +:+ c = a +:+ b +:+ c.
Proof. induction a as [|x a IH]; [done|]. by rewrite !app_cons, IH. Qed.

(** Two ways of cutting one text in two: one cut is behind the other. *)
Lemma app_eq_app (a b c d : string) :
  a +:+ b = c +:+ d →
  (∃ e, c = a +:+ e ∧ b = e +:+ d) ∨ (∃ e, e ≠ "" ∧ a = c +:+ e ∧ d = e +:+ b).
Proof.
  revert c. induction a as [|x a IH]; intros c Heq.
  - left. by exists c.
  - destruct c as [|y c].
    + right. by exists (String x a).
    + rewrite !app_cons in Heq. injection Heq as -> Heq.
      destruct (IH _ Heq) as [(e & -> & ->)|(e & He & -> & ->)].
      * left. by exists e.
      * right. by exists e.
Qed.

Lemma all_chars_app (P : ascii → bool) (s t : string) :
  all_chars P (s +:+ t) = all_chars P s && all_chars P t.
Proof.
  induction s as [|c s IH]; [done|].
  rewrite app_cons. simpl. by rewrite IH, andb_assoc.
Qed.

Lemma last_char_is_Some (c : ascii) (s : string) : is_Some (last_char (String c s)).
Proof. revert c. induction s as [|d s IH]; intros c; [by eexists|]. apply IH. Qed.

Lemma last_or_cons prev c s : last_or prev (String c s) = last_or (Some c) s.
Proof.
  destruct s as [|d s]; [done|]. unfold last_or.
  change (last_char (String c (String d s))) with (last_char (String d s)).
  by destruct (last_char_is_Some d s) as [x ->].
Qed.

Lemma last_or_app prev s t : last_or prev (s +:+ t) = last_or (last_or prev s) t.
Proof.
  revert prev. induction s as [|c s IH]; intros prev; [done|].
  by rewrite app_cons, !last_or_cons, IH.
Qed.

Lemma last_or_nonempty prev s : s ≠ "" → last_or prev s = last_char s.
Proof.
  destruct s as [|c s]; [done|]. intros _. unfold last_or.
  by destruct (last_char_is_Some c s) as [x ->].
Qed.

Lemma sources_app (l1 l2 : list segment) : sources (l1 ++ l2) = sources l1 +:+ sources l2.
Proof. induction l1 as [|seg l1 IH]; [done|]. simpl. by rewrite IH, str_app_assoc. Qed.

Lemma targets_app (l1 l2 : list segment) : targets (l1 ++ l2) = targets l1 +:+ targets l2.
Proof. induction l1 as [|seg l1 IH]; [done|]. simpl. by rewrite IH, str_app_assoc. Qed.

Lemma dict_get_key (table : synonym_table) (key : string) :
  key ∈ table.*1 → ∃ value, dict_get table key = Ok value.
Proof.
  induction table as [|[k v] table IH]; simpl; [by intros ?%elem_of_nil|].
  destruct (decide (k = key)); [by eexists|].
  intros [?|?]%elem_of_cons; [done|]. by apply IH.
Qed.

Lemma last_or_None (s : string) : last_or None s = last_char s.
Proof. unfold last_or. by destruct (last_char s). Qed.

Lemma length_app (s t : string) :
  String.length (s +:+ t) = String.length s + String.length t.
Proof. induction s as [|c s IH]; [done|]. rewrite app_cons. simpl. by rewrite IH. Qed.

(** The characters of an escaped key match themselves and nothing else. *)
Lemma match_here_escape key atoms prev rest m :
  Re.match_here (Re.escape key ++ atoms) prev rest = Some m
  ↔ ∃ right m', rest = key +:+ right
                ∧ Re.match_here atoms (last_or prev key) right = Some m'
                ∧ m = key +:+ m'.
Proof.
  revert prev rest m. induction key as [|c key IH]; intros prev rest m.
  - split; [intros Hm; by exists rest, m|]. by intros (right & m' & -> & Hm & ->).
  - change (Re.escape (String c key) ++ atoms)
      with (Re.Char c :: (Re.escape key ++ atoms)).
    destruct rest as [|d rest]; simpl.
    { split; [done|]. by intros (right & m' & Heq & _). }
    destruct (decide (d = c)) as [->|Hne].
    + rewrite fmap_Some. setoid_rewrite IH. split.
      * intros (m0 & (right & m' & -> & Hm' & ->) & ->).
        exists right, m'. by rewrite last_or_cons.
      * intros (right & m' & Heq & Hm' & ->). rewrite app_cons in Heq.
        injection Heq as ->. rewrite last_or_cons in Hm'.
        exists (key +:+ m'). split; [|done]. by exists right, m'.
    + split; [done|]. intros (right & m' & Heq & _).
      rewrite app_cons in Heq. by injection Heq as ? ?.
Qed.

(** The branch of a key matches exactly the whole-word occurrences of the
    key. *)
Lemma match_here_whole_word key prev rest m :
  Re.match_here (Re.whole_word key) prev rest = Some m
  ↔ m = key ∧ ∃ right, rest = key +:+ right ∧ whole_word_at prev key right.
Proof.
  unfold Re.whole_word, whole_word_at.
  change (Re.match_here (Re.WordBoundary :: ?l) prev rest)
    with (if Re.boundary prev rest then Re.match_here l prev rest else None).
  split.
  - destruct (Re.boundary prev rest) eqn:Hb; [|done].
    intros Hm. apply match_here_escape in Hm as (right & m' & -> & Hm' & ->).
    simpl in Hm'.
    destruct (Re.boundary (last_or prev key) right) eqn:Hb'; [|done].
    injection Hm' as <-. rewrite app_empty_r. split; [done|]. by exists right.
  - intros (-> & right & -> & Hb & Hb'). rewrite Hb.
    apply match_here_escape. exists right, "". simpl. rewrite Hb'.
    by rewrite app_empty_r.
Qed.

Lemma match_first_cons branch p must_advance prev rest :
  Re.match_first (branch :: p) must_advance prev rest
  = match Re.match_here branch prev rest with
    | Some m =>
        if must_advance && bool_decide (m = "")
        then Re.match_first p must_advance prev rest
        else Some m
    | None => Re.match_first p must_advance prev rest
    end.
Proof. reflexivity. Qed.

Lemma match_first_Some keys prev rest m :
  Re.match_first (Re.whole_word <$> keys) false prev rest = Some m →
  m ∈ keys ∧ ∃ right, rest = m +:+ right ∧ whole_word_at prev m right.
Proof.
  induction keys as [|key keys IH]; [done|].
  rewrite fmap_cons, match_first_cons.
  destruct (Re.match_here (Re.whole_word key) prev rest) as [m0|] eqn:Hkey.
  - intros [= ->]. apply match_here_whole_word in Hkey as (-> & right & Hright).
    split; [by left|]. by exists right.
  - intros [Hin Hm]%IH. split; [by right|done].
Qed.

Lemma match_first_None keys prev rest :
  Re.match_first (Re.whole_word <$> keys) false prev rest = None →
  ∀ key right, key ∈ keys → rest = key +:+ right → ¬ whole_word_at prev key right.
Proof.
  induction keys as [|k keys IH]; [by intros _ ?? ?%elem_of_nil|].
  rewrite fmap_cons, match_first_cons.
  destruct (Re.match_here (Re.whole_word k) prev rest) as [m0|] eqn:Hk; [done|].
  intros Hnone key right [->|Hin]%elem_of_cons Hrest Hwhole; [|by eapply IH].
  assert (Re.match_here (Re.whole_word k) prev rest = Some k) as Hsome.
  { apply match_here_whole_word. split; [done|]. by exists right. }
  by rewrite Hk in Hsome.
Qed.

Section scan.
Context (p : Re.pattern) (repl : string → result string).

(** The characters of a match are passed over, and the scan resumes
    behind them. *)
Lemma sub_from_skip (m right : string) (prev : option ascii) :
  Re.sub_from p repl (String.length m) prev (m +:+ right)
  = Re.sub_from p repl 0 (last_or prev m) right.
Proof.
  revert prev. induction m as [|c m IH]; intros prev; [done|].
  rewrite last_or_cons, <-IH. reflexivity.
Qed.

Lemma sub_from_cons (prev : option ascii) (c : ascii) (rest : string) :
  Re.sub_from p repl 0 prev (String c rest)
  = '(out, n) ← Re.replace_at p repl prev (String c rest);
    match n with
    | 0 => tail ← Re.sub_from p repl 0 (Some c) rest; Ok (out +:+ String c tail)
    | S n' => tail ← Re.sub_from p repl n' (Some c) rest; Ok (out +:+ tail)
    end.
Proof. reflexivity. Qed.
End scan.

Lemma dict_get_Ok_key (table : synonym_table) (key value : string) :
  dict_get table key = Ok value → key ∈ table.*1.
Proof.
  induction table as [|[k v] table IH]; simpl; [done|].
  destruct (decide (k = key)) as [->|]; [by left|]. intros Hget. right. by apply IH.
Qed.

Lemma targets_all_kept (segs : list segment) :
  (∀ before key value after, segs ≠ before ++ Replaced key value :: after) →
  targets segs = sources segs.
Proof.
  induction segs as [|seg segs IH]; intros Hkept; [done|].
  destruct seg as [c|key value]; [|by destruct (Hkept [] key value segs)].
  simpl. f_equal. apply IH. intros before key value after ->.
  by apply (Hkept (Kept c :: before) key value after).
Qed.




(** The branch that matches is the first one, in the order of the keys,
    whose key occurs as a whole word. *)
Lemma match_first_earlier keys prev rest m :
  Re.match_first (Re.whole_word <$> keys) false prev rest = Some m →
  ∃ earlier later,
    keys = earlier ++ m :: later
    ∧ ∀ k right, k ∈ earlier → rest = k +:+ right → ¬ whole_word_at prev k right.
Proof.
  induction keys as [|key keys IH]; [done|].
  rewrite fmap_cons, match_first_cons.
  destruct (Re.match_here (Re.whole_word key) prev rest) as [m0|] eqn:Hkey.
  - intros [= ->]. apply match_here_whole_word in Hkey as (-> & _).
    exists [], keys. split; [done|]. by intros k right ?%elem_of_nil.
  - intros (earlier & later & -> & Hnone)%IH.
    exists (key :: earlier), later. split; [done|].
    intros k right [->|Hin]%elem_of_cons Hrest Hwhole; [|by eapply Hnone].
    assert (Re.match_here (Re.whole_word key) prev rest = Some key) as Hsome.
    { apply match_here_whole_word. split; [done|]. by exists right. }
    by rewrite Hkey in Hsome.
Qed.





Section synonyms.
Context (table : synonym_table).
Hypothesis table_nonempty : table ≠ [].
Hypothesis keys_nonempty : Forall (λ kv, kv.1 ≠ "") table.

Lemma key_nonempty (key : string) : key ∈ table.*1 → key ≠ "".
Proof.
  intros ([k v] & -> & Hin)%list_elem_of_fmap.
  by apply (proj1 (Forall_forall _ _) keys_nonempty (k, v)).
Qed.

(** The scan of [_map_synonyms] returns, and what it returns is a scan in
    the sense of [scanned]. *)
Lemma sub_from_scanned (n : nat) (rest : string) (prev : option ascii) :
  String.length rest ≤ n →
  ∃ segs,
    sources segs = rest
    ∧ Re.sub_from (Re.whole_word <$> table.*1) (dict_get table) 0 prev rest
      = Ok (targets segs)
    ∧ scanned table prev segs.
Proof.
  revert rest prev. induction n as [|n IH]; intros rest prev Hlen.
  { destruct rest; [|simpl in Hlen; lia]. exists []. split_and!; [done| |constructor].
    simpl. unfold Re.replace_at.
    destruct (Re.match_first _ false prev "") as [m|] eqn:Hm; [|done].
    apply match_first_Some in Hm as (Hin%key_nonempty & right & Hright & _).
    by destruct m. }
  destruct rest as [|c rest].
  { apply IH. simpl. lia. }
  rewrite sub_from_cons. unfold Re.replace_at. simpl in Hlen.
  destruct (Re.match_first _ false prev (String c rest)) as [m|] eqn:Hm.
  - pose proof (match_first_earlier _ _ _ _ Hm) as Hfirst.
    apply match_first_Some in Hm as (Hin & right & Hright & Hwhole).
    pose proof (key_nonempty _ Hin) as Hne.
    destruct (dict_get_key _ _ Hin) as [value Hvalue]. rewrite Hvalue. simpl.
    destruct (decide (m = "")) as [|_]; [done|]. simpl.
    destruct m as [|c' m]; [done|]. rewrite app_cons in Hright.
    injection Hright as <- ->. simpl. rewrite sub_from_skip.
    destruct (IH right (last_or (Some c) m)) as (segs & Hsrc & -> & Hscan).
    { rewrite length_app in Hlen. lia. }
    exists (Replaced (String c m) value :: segs). split_and!.
    + simpl. by rewrite Hsrc.
    + done.
    + constructor; [done|done|by rewrite Hsrc|by rewrite Hsrc|].
      by rewrite <-(last_or_nonempty prev), last_or_cons.
  - simpl. destruct (IH rest (Some c)) as (segs & Hsrc & -> & Hscan); [lia|].
    exists (Kept c :: segs). split_and!.
    + simpl. by rewrite Hsrc.
    + done.
    + constructor; [|done]. rewrite Hsrc. by apply match_first_None.
Qed.

(** Only whole-word occurrences of keys are replaced, each by the value
    of its key. *)
Lemma scanned_sound prev segs :
  scanned table prev segs →
  ∀ before key value after,
    segs = before ++ Replaced key value :: after →
    dict_get table key = Ok value
    ∧ whole_word_at (last_or prev (sources before)) key (sources after).
Proof.
  induction 1
    as [prev|prev c segs Hnone Hscan IH|prev k v segs Hne Hv Hwhole Hfirst Hscan IH];
    intros before key value after Heq.
  - by destruct before.
  - destruct before as [|seg before]; [done|]. injection Heq as <- ->.
    destruct (IH _ _ _ _ eq_refl) as [Hvalue Hw]. split; [done|].
    simpl. by rewrite app_cons, last_or_cons.
  - destruct before as [|seg before].
    + by injection Heq as <- <- <-.
    + injection Heq as <- ->.
      destruct (IH _ _ _ _ eq_refl) as [Hvalue Hw]. split; [done|].
      simpl. by rewrite last_or_app, (last_or_nonempty prev k).
Qed.


(** Every whole-word occurrence of a key starts on a character of a
    replaced occurrence. *)
Lemma scanned_complete prev segs :
  scanned table prev segs →
  ∀ left key right,
    sources segs = left +:+ key +:+ right →
    key ∈ table.*1 →
    whole_word_at (last_or prev left) key right →
    ∃ before key' value' after u w,
      segs = before ++ Replaced key' value' :: after
      ∧ left = sources before +:+ u ∧ key' = u +:+ w ∧ w ≠ "".
Proof.
  induction 1
    as [prev|prev c segs Hnone Hscan IH|prev k v segs Hne Hv Hwhole Hfirst Hscan IH];
    intros left key right Heq Hin Hw.
  - apply key_nonempty in Hin. destruct left; [by destruct key|done].
  - simpl in Heq. rewrite app_cons in Heq. destruct left as [|c' left].
    + exfalso. by eapply Hnone.
    + rewrite app_cons in Heq. injection Heq as <- Heq.
      rewrite last_or_cons in Hw.
      destruct (IH _ _ _ Heq Hin Hw)
        as (before & key' & value' & after & u & w & -> & -> & -> & Hne).
      by exists (Kept c :: before), (u +:+ w), value', after, u, w.
  - simpl in Heq. apply app_eq_app in Heq as [(e & -> & Heq)|(e & He & -> & Heq)].
    + rewrite last_or_app, (last_or_nonempty prev k) in Hw by done.
      destruct (IH _ _ _ Heq Hin Hw)
        as (before & key' & value' & after & u & w & -> & -> & -> & Hne').
      exists (Replaced k v :: before), (u +:+ w), value', after, u, w.
      split_and!; [done| |done..]. simpl. by rewrite str_app_assoc.
    + by exists [], (left +:+ e), v, segs, left, e.
Qed.




End synonyms.






(** * Further properties *)

(** ** Synonyms: when the mapper raises, and what it leaves alone *)

Lemma match_first_in_keys keys must_advance prev rest m :
  Re.match_first (Re.whole_word <$> keys) must_advance prev rest = Some m →
  m ∈ keys.
Proof.
  induction keys as [|key keys IH]; [done|].
  rewrite fmap_cons, match_first_cons.
  destruct (Re.match_here (Re.whole_word key) prev rest) as [m0|] eqn:Hkey.
  - apply match_here_whole_word in Hkey as (-> & _).
    destruct (must_advance && bool_decide (key = "")).
    + intros Hm. right. by apply IH.
    + intros [= ->]. by left.
  - intros Hm. right. by apply IH.
Qed.

Section scan_total.
Context (p : Re.pattern) (repl : string → result string).
Hypothesis repl_total : ∀ must_advance prev rest m,
  Re.match_first p must_advance prev rest = Some m → ∃ v, repl m = Ok v.

Lemma replace_at_total prev rest :
  ∃ out n, Re.replace_at p repl prev rest = Ok (out, n).
Proof.
  unfold Re.replace_at.
  destruct (Re.match_first p false prev rest) as [m|] eqn:Hm; [|by eexists _, _].
  destruct (repl_total _ _ _ _ Hm) as [v ->]. simpl.
  destruct (decide (m = "")); [|by eexists _, _].
  destruct (Re.match_first p true prev rest) as [m'|] eqn:Hm'; [|by eexists _, _].
  destruct (repl_total _ _ _ _ Hm') as [v' ->]. by eexists _, _.
Qed.

Lemma sub_from_total rest skip prev :
  ∃ out, Re.sub_from p repl skip prev rest = Ok out.
Proof.
  revert skip prev. induction rest as [|c rest IH]; intros skip prev.
  - destruct skip; [|by eexists]. simpl.
    destruct (replace_at_total prev "") as (out & n & ->). by eexists.
  - destruct skip as [|skip]; [|apply IH].
    rewrite sub_from_cons.
    destruct (replace_at_total prev (String c rest)) as (out & n & ->). simpl.
    destruct n as [|n].
    + destruct (IH 0 (Some c)) as [tail ->]. by eexists.
    + destruct (IH n (Some c)) as [tail ->]. by eexists.
Qed.
End scan_total.

(** With a table that is not empty the pattern is the list of the
    branches of its keys. *)
Lemma map_synonyms_unfold (text : string) (table : synonym_table) :
  table ≠ [] →
  _map_synonyms text table
  = Re.sub_from (Re.whole_word <$> table.*1) (dict_get table) 0 None text.
Proof. by destruct table. Qed.

(** X1: for a table of strings, [_map_synonyms] raises exactly when the
    table is empty, and what it raises then is [KeyError] for the empty
    text that the empty pattern matches; with any other table, empty
    keys included, it returns a text. *)
Theorem map_synonyms_raises_iff_empty (text : string) (table : synonym_table) :
  (∀ e, _map_synonyms text table = Raise e ↔ table = [] ∧ e = KeyError "")
  ∧ ((∃ out, _map_synonyms text table = Ok out) ↔ table ≠ []).
Proof.
  destruct (decide (table = [])) as [->|Hne].
  - assert (_map_synonyms text [] = Raise (KeyError "")) as Hraise.
    { by destruct text. }
    rewrite Hraise. split.
    + intros e. split; [by intros [= <-]|by intros [_ ->]].
    + split; [by intros [out ?]|done].
  - rewrite map_synonyms_unfold by done.
    destruct (sub_from_total (Re.whole_word <$> table.*1) (dict_get table))
      with (rest := text) (skip := 0) (prev := @None ascii) as [out ->].
    { intros b prev rest m Hm%match_first_in_keys. by apply dict_get_key. }
    split.
    + intros e. split; [done|by intros [? _]].
    + split; [done|]. intros _. by exists out.
Qed.

Lemma word_key_first (key rest : string) :
  is_word_key key → Re.word_after (key +:+ rest) = true.
Proof.
  intros [Hne Hall]. destruct key as [|c key]; [done|].
  simpl in Hall. by apply andb_true_iff in Hall as [Hc _].
Qed.

Lemma word_key_last (key : string) :
  is_word_key key → Re.word_before (last_char key) = true.
Proof.
  intros [Hne Hall]. induction key as [|c key IH]; [done|].
  simpl in Hall. apply andb_true_iff in Hall as [Hc Hall].
  destruct key as [|d key]; [done|]. by apply IH.
Qed.

(** Around a key that is one word, the word boundaries say that no word
    character stands before it and none behind it. *)
Lemma whole_word_at_word_key prev key right :
  is_word_key key →
  whole_word_at prev key right
  ↔ Re.word_before prev = false ∧ Re.word_after right = false.
Proof.
  intros Hkey. unfold whole_word_at, Re.boundary.
  rewrite (word_key_first key right Hkey).
  rewrite (last_or_nonempty prev key) by apply Hkey.
  rewrite (word_key_last key Hkey).
  destruct (Re.word_before prev), (Re.word_after right); simpl;
    intuition congruence.
Qed.

Lemma word_key_prefix (u w : string) :
  u ≠ "" → is_word_key (u +:+ w) → is_word_key u.
Proof.
  intros Hu [_ Hall]. rewrite all_chars_app in Hall.
  by apply andb_true_iff in Hall as [Hall _].
Qed.

Lemma word_key_suffix (u w : string) :
  w ≠ "" → is_word_key (u +:+ w) → is_word_key w.
Proof.
  intros Hw [_ Hall]. rewrite all_chars_app in Hall.
  by apply andb_true_iff in Hall as [_ Hall].
Qed.

(** X2: when the table is not empty and every key is one word, a
    non-empty run of word characters, the words of the specification hold
    as they stand: [_map_synonyms] returns, and the text decomposes into
    characters that were kept and occurrences of keys that were replaced
    by the values of these keys, where the replaced occurrences are
    exactly the occurrences of keys with no word character directly
    before or behind them. *)
Theorem map_synonyms_word_keys (table : synonym_table) (text : string) :
  table ≠ [] →
  Forall (λ kv, is_word_key kv.1) table →
  ∃ segs,
    sources segs = text
    ∧ _map_synonyms text table = Ok (targets segs)
    ∧ (∀ before key value after,
         segs = before ++ Replaced key value :: after →
         dict_get table key = Ok value
         ∧ stands_alone (last_char (sources before)) (sources after))
    ∧ (∀ left key value right,
         text = left +:+ key +:+ right →
         dict_get table key = Ok value →
         stands_alone (last_char left) right →
         ∃ before after,
           segs = before ++ Replaced key value :: after
           ∧ sources before = left ∧ sources after = right).
Proof.
  intros Htable Hwords.
  assert (Hkeys : Forall (λ kv, kv.1 ≠ "") table).
  { eapply Forall_impl; [done|]. by intros kv [Hne _]. }
  assert (Hword : ∀ key, key ∈ table.*1 → is_word_key key).
  { intros key ([k v] & -> & Hin)%list_elem_of_fmap.
    by apply (proj1 (Forall_forall _ _) Hwords (k, v)). }
  destruct (sub_from_scanned table Hkeys (String.length text) text None)
    as (segs & Hsrc & Hsub & Hscan); [done|].
  exists segs. split_and!; [done|by rewrite map_synonyms_unfold| |].
  { intros before key value after Heq.
    destruct (scanned_sound table None _ Hscan _ _ _ _ Heq) as [Hget Hw].
    split; [done|]. rewrite <-last_or_None.
    apply (whole_word_at_word_key _ key); [|done].
    by apply Hword, (dict_get_Ok_key _ _ value). }
  intros left key value right Htext Hget Halone.
  pose proof (dict_get_Ok_key _ _ _ Hget) as Hin.
  pose proof (Hword _ Hin) as Hkey.
  assert (whole_word_at (last_or None left) key right) as Hw.
  { rewrite last_or_None. by apply whole_word_at_word_key. }
  destruct (scanned_complete table Hkeys None segs Hscan left key right)
    as (before & key' & value' & after & u & w & -> & -> & -> & Hne);
    [by rewrite Hsrc|done..|].
  destruct (scanned_sound table None _ Hscan _ _ _ _ eq_refl) as [Hget' Hw'].
  pose proof (Hword _ (dict_get_Ok_key _ _ _ Hget')) as Hkey'.
  apply whole_word_at_word_key in Hw as [Hbefore Hafter]; [|done].
  apply whole_word_at_word_key in Hw' as [Hbefore' Hafter']; [|done].
  assert (u = "") as ->.
  { destruct (decide (u = "")) as [|Hu]; [done|]. exfalso.
    rewrite last_or_app, (last_or_nonempty _ u Hu) in Hbefore.
    by rewrite (word_key_last u (word_key_prefix u w Hu Hkey')) in Hbefore. }
  rewrite app_empty_r in *. change ("" +:+ w) with w in *.
  rewrite sources_app in Hsrc. simpl in Hsrc.
  rewrite <-Hsrc in Htext. apply (inj (String.app _)) in Htext.
  assert (w = key) as ->.
  { apply app_eq_app in Htext as [(e & -> & Hrest)|(e & He & -> & ->)].
    - destruct (decide (e = "")) as [->|He]; [by rewrite app_empty_r|]. exfalso.
      rewrite Hrest in Hafter'.
      by rewrite (word_key_first e _ (word_key_suffix w e He Hkey)) in Hafter'.
    - exfalso.
      by rewrite (word_key_first e _ (word_key_suffix key e He Hkey')) in Hafter. }
  apply (inj (String.app _)) in Htext.
  rewrite Hget in Hget'. injection Hget' as <-. by exists before, after.
Qed.

Lemma map_synonyms_word_keys_witness :
  ∃ segs,
    sources segs = "foo bar foo"
    ∧ _map_synonyms "foo bar foo" [("foo", "baz"); ("bar", "qux")] = Ok (targets segs)
    ∧ (∀ before key value after,
         segs = before ++ Replaced key value :: after →
         dict_get [("foo", "baz"); ("bar", "qux")] key = Ok value
         ∧ stands_alone (last_char (sources before)) (sources after))
    ∧ (∀ left key value right,
         "foo bar foo" = left +:+ key +:+ right →
         dict_get [("foo", "baz"); ("bar", "qux")] key = Ok value →
         stands_alone (last_char left) right →
         ∃ before after,
           segs = before ++ Replaced key value :: after
           ∧ sources before = left ∧ sources after = right).
Proof.
  apply (map_synonyms_word_keys [("foo", "baz"); ("bar", "qux")] "foo bar foo").
  - done.
  - repeat constructor; by vm_compute.
Defined.

(** X3: with a table that is not empty and has no empty key, a text in
    which no key occurs as a whole word is returned as it is. *)
Theorem map_synonyms_no_occurrence (table : synonym_table) (text : string) :
  table ≠ [] →
  Forall (λ kv, kv.1 ≠ "") table →
  (∀ left key right,
     text = left +:+ key +:+ right → key ∈ table.*1 →
     ¬ whole_word_at (last_char left) key right) →
  _map_synonyms text table = Ok text.
Proof.
  intros Htable Hkeys Hnone.
  destruct (sub_from_scanned table Hkeys (String.length text) text None)
    as (segs & Hsrc & Hsub & Hscan); [done|].
  rewrite map_synonyms_unfold, Hsub, <-Hsrc by done. f_equal.
  apply targets_all_kept. intros before key value after ->.
  destruct (scanned_sound table None _ Hscan _ _ _ _ eq_refl) as [Hget Hw].
  rewrite last_or_None in Hw.
  apply (Hnone (sources before) key (sources after)); [|by eapply dict_get_Ok_key|done].
  by rewrite <-Hsrc, sources_app.
Qed.

Lemma map_synonyms_no_occurrence_witness :
  _map_synonyms "foobar" [("foo", "baz")] = Ok "foobar".
Proof.
  apply (map_synonyms_no_occurrence [("foo", "baz")] "foobar").
  - done.
  - by repeat constructor.
  - intros left key right Htext Hin [Hb1 Hb2].
    apply elem_of_cons in Hin as [->|Hin]; [|by apply elem_of_nil in Hin].
    destruct left as [|c1 left].
    { vm_compute in Htext. injection Htext as <-. by vm_compute in Hb2. }
    rewrite app_cons in Htext. injection Htext as <- Htext.
    repeat (destruct left as [|? left];
            [by vm_compute in Htext
            |rewrite app_cons in Htext; injection Htext as <- Htext]).
    by destruct left.
Defined.

(** ** Stopword removal and lemmatizing *)

(** X4: removing the stopwords [A] and then the stopwords [B] is removing
    the stopwords of [A ∪ B] at once; so removing the same stopwords a
    second time changes nothing. *)
Theorem custom_remove_stopwords_twice (s : string) (A B : gset string) :
  _custom_remove_stopwords (_custom_remove_stopwords s A) B
  = _custom_remove_stopwords s (A ∪ B)
  ∧ _custom_remove_stopwords (_custom_remove_stopwords s A) A
    = _custom_remove_stopwords s A.
Proof.
  assert (Htwice : ∀ C : gset string,
    _custom_remove_stopwords (_custom_remove_stopwords s A) C
    = _custom_remove_stopwords s (A ∪ C)).
  { intros C. unfold _custom_remove_stopwords at 1 3. f_equal.
    unfold _custom_remove_stopwords.
    rewrite split_join by apply filter_is_token, split_is_token.
    rewrite list_filter_filter. apply list_filter_iff.
    intros w. rewrite not_elem_of_union. tauto. }
  split; [apply Htwice|]. by rewrite Htwice, union_idemp_L.
Qed.

Lemma strip_tags_no_tag (s : string) (in_tag : bool) :
  no_tag (strip_tags in_tag s) = true.
Proof.
  revert in_tag. induction s as [|c s IH]; intros in_tag; [done|]. simpl.
  destruct (Py.isspace c) eqn:Hc.
  { simpl. rewrite IH, andb_true_r. apply negb_true_iff, andb_false_iff. left.
    apply bool_decide_eq_false. by intros ->. }
  destruct in_tag; [apply IH|].
  destruct (bool_decide (c = "/"%char)) eqn:Hslash; simpl.
  - destruct s as [|d s].
    { simpl. by rewrite andb_false_r. }
    destruct (Py.isspace d) eqn:Hd; [|apply IH].
    assert (Py.run_follows (strip_tags false (String d s)) = false) as Hrun.
    { simpl. rewrite Hd. simpl. by rewrite Hd. }
    cbn [negb no_tag]. by rewrite Hrun, IH, andb_false_r.
  - by rewrite Hslash, IH.
Qed.

Lemma strip_tags_lemma (l s : string) :
  all_chars (λ c, negb (bool_decide (c = "/"%char)) && negb (Py.isspace c)) l = true →
  strip_tags false (l +:+ s) = l +:+ strip_tags false s.
Proof.
  induction l as [|c l IH]; [done|]. intros Hall. simpl in Hall.
  apply andb_true_iff in Hall as [[Hslash Hc]%andb_true_iff Hl].
  apply negb_true_iff in Hslash, Hc.
  rewrite !app_cons. simpl. rewrite Hc, Hslash. simpl. by rewrite IH.
Qed.

Lemma strip_tags_in_tag (t s : string) :
  all_chars (λ c, negb (Py.isspace c)) t = true →
  strip_tags true (t +:+ s) = strip_tags true s.
Proof.
  induction t as [|c t IH]; [done|]. intros Hall. simpl in Hall.
  apply andb_true_iff in Hall as [Hc%negb_true_iff Ht].
  rewrite app_cons. simpl. rewrite Hc. by apply IH.
Qed.

Lemma strip_tags_at_break (s : string) :
  Py.run_follows s = false → strip_tags true s = strip_tags false s.
Proof.
  destruct s as [|c s]; [done|]. simpl. intros Hc%negb_false_iff. by rewrite Hc.
Qed.

Lemma strip_tags_tagged (lemma_tag : string * string) (s : string) :
  well_tagged lemma_tag → Py.run_follows s = false →
  strip_tags false (tagged lemma_tag +:+ s) = lemma_tag.1 +:+ strip_tags false s.
Proof.
  destruct lemma_tag as [l t]. intros (Hl & Hne & Ht) Hs. unfold tagged. simpl in *.
  rewrite str_app_assoc, strip_tags_lemma by done. f_equal.
  destruct t as [|d t]; [done|]. rewrite str_app_assoc.
  change ("/" +:+ String d t +:+ s) with (String "/" (String d (t +:+ s))).
  pose proof Ht as Ht'. simpl in Ht'.
  apply andb_true_iff in Ht' as [Hd%negb_true_iff _].
  assert (strip_tags false (String "/" (String d (t +:+ s)))
          = strip_tags true (String d t +:+ s)) as ->.
  { rewrite app_cons. simpl. by rewrite Hd. }
  by rewrite strip_tags_in_tag, strip_tags_at_break.
Qed.

Lemma strip_tags_join (pairs : list (string * string)) :
  Forall well_tagged pairs →
  strip_tags false (Py.join " " (tagged <$> pairs)) = Py.join " " pairs.*1.
Proof.
  induction 1 as [|p pairs Hp Hpairs IH]; [done|].
  destruct pairs as [|q pairs].
  - simpl. rewrite <-(app_empty_r (tagged p)).
    rewrite strip_tags_tagged by done. apply app_empty_r.
  - change (Py.join " " (tagged <$> p :: q :: pairs))
      with (tagged p +:+ String " " (Py.join " " (tagged <$> q :: pairs))).
    rewrite strip_tags_tagged by done.
    change (strip_tags false (String " " ?u)) with (String " " (strip_tags false u)).
    by rewrite IH.
Qed.

Section lemmatizing.
Context `{Library}.

(** X5: whatever the lemmatizer returns, no tag is left in the result of
    [_custom_lemmatize]: a slash that remains is followed by whitespace or
    ends the text.  An exception of the lemmatizer is passed on. *)
Theorem custom_lemmatize_leaves_no_tag (text : string) :
  (∀ out, _custom_lemmatize text = Ok out → no_tag out = true)
  ∧ (∀ e, lemmatize text = Raise e → _custom_lemmatize text = Raise e).
Proof.
  unfold _custom_lemmatize. split.
  - intros out. destruct (lemmatize text) as [tokens|]; [|done].
    intros [= <-]. apply strip_tags_no_tag.
  - by intros e ->.
Qed.

(** X6: when the lemmatizer returns lemmas with their tags, each lemma
    free of slashes and whitespace and each tag not empty,
    [_custom_lemmatize] returns the lemmas alone, joined by single
    spaces. *)
Theorem custom_lemmatize_tagged (text : string) (pairs : list (string * string)) :
  Forall well_tagged pairs →
  lemmatize text = Ok (tagged <$> pairs) →
  _custom_lemmatize text = Ok (Py.join " " pairs.*1).
Proof.
  intros Hpairs Hlem. unfold _custom_lemmatize. rewrite Hlem. simpl.
  by rewrite strip_tags_join.
Qed.
End lemmatizing.

Lemma custom_lemmatize_leaves_no_tag_witness :
  no_tag "cats sit" = true.
Proof.
  apply (proj1 (custom_lemmatize_leaves_no_tag (H:=exporting_library) "cats sit")).
  reflexivity.
Defined.

Lemma custom_lemmatize_tagged_witness :
  _custom_lemmatize (H:=exporting_library) "cats sit"
  = Ok (Py.join " " [("cats", "NN"); ("sit", "NN")].*1).
Proof.
  apply (custom_lemmatize_tagged (H:=exporting_library)).
  - repeat constructor; by vm_compute.
  - reflexivity.
Defined.

(** ** The builder: what a chain tells about the configuration *)

Lemma result_bind_Ok {A B : Type} (m : result A) (f : A → result B) (y : B) :
  m ≫= f = Ok y → ∃ x, m = Ok x ∧ f x = Ok y.
Proof. destruct m as [x|]; [|done]. intros Hy. by exists x. Qed.

Section builder.
Context `{Library}.

(** One block of the builder, read backwards: the flag was there and was
    a boolean, and what the block appended is the step it makes. *)
Lemma append_if_inv cfg key section make custom_filters custom_filters' (st : step) :
  (∀ f, make = Ok f → step_of f = st) →
  append_if cfg key section make custom_filters = Ok custom_filters' →
  ∃ (b : bool) appended,
    getbool cfg key section = Ok b
    ∧ custom_filters' = custom_filters ++ appended
    ∧ Forall (λ f, make = Ok f) appended
    ∧ ∀ s, s ∈ step_of <$> appended ↔ s = st ∧ b = true.
Proof.
  intros Hst. unfold append_if.
  destruct (getbool cfg key section) as [[]|]; simpl; [| |done].
  - destruct make as [f|] eqn:Hmake; [|done]. simpl. intros [= <-].
    exists true, [f]. split_and!; [done..|by repeat constructor|].
    intros s. simpl. rewrite (Hst f eq_refl), list_elem_of_singleton.
    split; [by intros ->|by intros [-> _]].
  - intros [= <-]. exists false, []. split_and!; [done|by rewrite app_nil_r|done|].
    intros s. simpl. split; [by intros ?%elem_of_nil|]. by intros [_ ?].
Qed.

(** X7: if [_build_custom_filter_list] returns a chain, every one of the
    eight flags was present and boolean, those of the steps left out as
    well; a step is in the chain exactly when its flag is on; and a step
    with a parameter carries what was loaded for it: the synonym map, the
    stopword set, the minimum size. *)
Theorem build_custom_filter_list_inv
    (env : environment) (section : string) (custom_filters : list custom_filter) :
  _build_custom_filter_list env section = Ok custom_filters →
  (∀ s, ∃ b : bool,
     getbool (configparser env) (flag s) section = Ok b
     ∧ (s ∈ step_of <$> custom_filters ↔ b = true))
  ∧ (∀ t, MapSynonyms t ∈ custom_filters →
          _load_synonym_map env section = Ok t)
  ∧ (∀ stopwords, RemoveStopwords stopwords ∈ custom_filters →
          _generate_custom_stopwords env section = Ok stopwords)
  ∧ (∀ n, StripShort n ∈ custom_filters →
          getint (configparser env) "strip_short_minsize" section = Ok n).
Proof.
  unfold _build_custom_filter_list. cbv zeta. intros Hbuild.
  apply result_bind_Ok in Hbuild as (fs1 & H1 & Hbuild).
  apply result_bind_Ok in Hbuild as (fs2 & H2 & Hbuild).
  apply result_bind_Ok in Hbuild as (fs3 & H3 & Hbuild).
  apply result_bind_Ok in Hbuild as (fs4 & H4 & Hbuild).
  apply result_bind_Ok in Hbuild as (fs5 & H5 & Hbuild).
  apply result_bind_Ok in Hbuild as (fs6 & H6 & Hbuild).
  apply result_bind_Ok in Hbuild as (fs7 & H7 & Hbuild).
  apply result_bind_Ok in Hbuild as (fs8 & H8 & [= <-]).
  apply (append_if_inv _ _ _ _ _ _ lower_step) in H1
    as (b1 & o1 & Hb1 & -> & Ho1 & Hs1); [|by intros f [= <-]].
  apply (append_if_inv _ _ _ _ _ _ map_synonym_step) in H2
    as (b2 & o2 & Hb2 & -> & Ho2 & Hs2);
    [|intros f; by destruct (_load_synonym_map env section); intros [= <-]].
  apply (append_if_inv _ _ _ _ _ _ strip_punctuation_step) in H3
    as (b3 & o3 & Hb3 & -> & Ho3 & Hs3); [|by intros f [= <-]].
  apply (append_if_inv _ _ _ _ _ _ strip_multiple_whitespaces_step) in H4
    as (b4 & o4 & Hb4 & -> & Ho4 & Hs4); [|by intros f [= <-]].
  apply (append_if_inv _ _ _ _ _ _ strip_numeric_step) in H5
    as (b5 & o5 & Hb5 & -> & Ho5 & Hs5); [|by intros f [= <-]].
  apply (append_if_inv _ _ _ _ _ _ remove_stopwords_step) in H6
    as (b6 & o6 & Hb6 & -> & Ho6 & Hs6);
    [|intros f; by destruct (_generate_custom_stopwords env section); intros [= <-]].
  apply (append_if_inv _ _ _ _ _ _ strip_short_step) in H7
    as (b7 & o7 & Hb7 & -> & Ho7 & Hs7);
    [|intros f; by destruct (getint _ _ _); intros [= <-]].
  apply (append_if_inv _ _ _ _ _ _ lemmatize_step) in H8
    as (b8 & o8 & Hb8 & -> & Ho8 & Hs8); [|by intros f [= <-]].
  assert (Hmade : ∀ f, f ∈ [] ++ o1 ++ o2 ++ o3 ++ o4 ++ o5 ++ o6 ++ o7 ++ o8 →
    Ok Lower = Ok f
    ∨ MapSynonyms <$> _load_synonym_map env section = Ok f
    ∨ Ok StripPunctuation = Ok f ∨ Ok StripMultipleWhitespaces = Ok f
    ∨ Ok StripNumeric = Ok f
    ∨ RemoveStopwords <$> _generate_custom_stopwords env section = Ok f
    ∨ StripShort <$> getint (configparser env) "strip_short_minsize" section = Ok f
    ∨ Ok Lemmatize = Ok f).
  { intros f. rewrite !elem_of_app.
    rewrite Forall_forall in Ho1, Ho2, Ho3, Ho4, Ho5, Ho6, Ho7, Ho8.
    intros [?%elem_of_nil|[?|[?|[?|[?|[?|[?|[?|?]]]]]]]]; [done|auto 10..]. }
  rewrite <-!(assoc_L (++)).
  split_and!.
  - intros s. setoid_rewrite fmap_app. setoid_rewrite elem_of_app.
    repeat (setoid_rewrite fmap_app; setoid_rewrite elem_of_app).
    setoid_rewrite Hs1. setoid_rewrite Hs2. setoid_rewrite Hs3.
    setoid_rewrite Hs4. setoid_rewrite Hs5. setoid_rewrite Hs6.
    setoid_rewrite Hs7. setoid_rewrite Hs8.
    destruct s; eexists; (split; [eassumption|]); simpl;
      rewrite elem_of_nil; intuition congruence.
  - intros t [|[Ht|[|[|[|[Ht|[Ht|]]]]]]]%Hmade; try done.
    + destruct (_load_synonym_map env section); by simplify_eq/=.
    + destruct (_generate_custom_stopwords env section); by simplify_eq/=.
    + destruct (getint _ _ _); by simplify_eq/=.
  - intros sw [|[Ht|[|[|[|[Ht|[Ht|]]]]]]]%Hmade; try done.
    + destruct (_load_synonym_map env section); by simplify_eq/=.
    + destruct (_generate_custom_stopwords env section); by simplify_eq/=.
    + destruct (getint _ _ _); by simplify_eq/=.
  - intros n [|[Ht|[|[|[|[Ht|[Ht|]]]]]]]%Hmade; try done.
    + destruct (_load_synonym_map env section); by simplify_eq/=.
    + destruct (_generate_custom_stopwords env section); by simplify_eq/=.
    + destruct (getint _ _ _); by simplify_eq/=.
Qed.
End builder.

Lemma build_custom_filter_list_inv_witness :
  (∀ s, ∃ b : bool,
     getbool (configparser (sample_env (H:=plain_library) scrambled_flags))
       (flag s) "filter" = Ok b
     ∧ (s ∈ step_of (H:=plain_library)
              <$> [Lower; MapSynonyms [("kitty", "cat")]; StripPunctuation;
                   RemoveStopwords (custom_stopwords (@STOPWORDS plain_library)
                                      ["cat"; "meow"] ["meow"; "a"]);
                   StripShort 3]
        ↔ b = true))
  ∧ (∀ t, MapSynonyms t
          ∈ [Lower; MapSynonyms [("kitty", "cat")]; StripPunctuation;
             RemoveStopwords (custom_stopwords (@STOPWORDS plain_library)
                                ["cat"; "meow"] ["meow"; "a"]);
             StripShort 3] →
          _load_synonym_map (H:=plain_library) (sample_env scrambled_flags)
            "filter" = Ok t)
  ∧ (∀ stopwords, RemoveStopwords stopwords
          ∈ [Lower; MapSynonyms [("kitty", "cat")]; StripPunctuation;
             RemoveStopwords (custom_stopwords (@STOPWORDS plain_library)
                                ["cat"; "meow"] ["meow"; "a"]);
             StripShort 3] →
          _generate_custom_stopwords (H:=plain_library)
            (sample_env scrambled_flags) "filter" = Ok stopwords)
  ∧ (∀ n, StripShort n
          ∈ [Lower; MapSynonyms [("kitty", "cat")]; StripPunctuation;
             RemoveStopwords (custom_stopwords (@STOPWORDS plain_library)
                                ["cat"; "meow"] ["meow"; "a"]);
             StripShort 3] →
          getint (configparser (sample_env (H:=plain_library) scrambled_flags))
            "strip_short_minsize" "filter" = Ok n).
Proof.
  apply (build_custom_filter_list_inv (H:=plain_library)
           (sample_env scrambled_flags) "filter").
  reflexivity.
Defined.

Section builder_reads.
Context `{Library}.

Lemma append_if_ext cfg key section make make' (custom_filters : list custom_filter) :
  (getbool cfg key section = Ok true → make = make') →
  append_if cfg key section make custom_filters
  = append_if cfg key section make' custom_filters.
Proof.
  intros Hmake. unfold append_if.
  destruct (getbool cfg key section) as [[]|]; simpl; [|done..].
  by rewrite Hmake.
Qed.

(** X8: [_build_custom_filter_list] reads the synonym map only when
    [map_synonym] is on and the stopword files only when
    [remove_stopwords] is on, and it never loads a phrase model: two
    environments with the same configuration that agree on the files of
    the enabled steps give the same chain or the same exception. *)
Theorem build_reads_only_enabled (env env' : environment) (section : string) :
  configparser env' = configparser env →
  (getbool (configparser env) "map_synonym" section = Ok true →
     ∀ path, read_synonym_map env' path = read_synonym_map env path) →
  (getbool (configparser env) "remove_stopwords" section = Ok true →
     ∀ path, read_text env' path = read_text env path) →
  _build_custom_filter_list env' section = _build_custom_filter_list env section.
Proof.
  intros Hcfg Hsyn Hstop. unfold _build_custom_filter_list. cbv zeta.
  rewrite Hcfg.
  destruct (append_if _ "lower" _ _ _) as [fs1|]; simpl; [|done].
  rewrite (append_if_ext _ "map_synonym" _ _
             (MapSynonyms <$> _load_synonym_map env section)).
  2:{ intros Hon. unfold _load_synonym_map. rewrite Hcfg.
      destruct (getstr _ "synonym_map" _); simpl; [|done]. by rewrite Hsyn. }
  destruct (append_if _ "map_synonym" _ _ _) as [fs2|]; simpl; [|done].
  destruct (append_if _ "strip_punctuation" _ _ _) as [fs3|]; simpl; [|done].
  destruct (append_if _ "strip_multiple_whitespaces" _ _ _) as [fs4|]; simpl; [|done].
  destruct (append_if _ "strip_numeric" _ _ _) as [fs5|]; simpl; [|done].
  rewrite (append_if_ext _ "remove_stopwords" _ _
             (RemoveStopwords <$> _generate_custom_stopwords env section)).
  2:{ intros Hon. unfold _generate_custom_stopwords. rewrite Hcfg.
      destruct (getstr _ "stopwords_to_add" _); simpl; [|done].
      rewrite Hstop by done. destruct (read_text env _); simpl; [|done].
      destruct (getstr _ "stopwords_to_remove" _); simpl; [|done].
      by rewrite Hstop. }
  done.
Qed.
End builder_reads.

Lemma build_reads_only_enabled_witness :
  _build_custom_filter_list (H:=plain_library)
    (without_files (sample_env fileless_flags)) "filter"
  = _build_custom_filter_list (H:=plain_library) (sample_env fileless_flags) "filter".
Proof.
  apply (build_reads_only_enabled (H:=plain_library)); [reflexivity|..];
    intros Hon; by vm_compute in Hon.
Defined.

(** ** Phrase generation when it is on *)

Lemma drop_duplicates_spec {V : Type} (seen : list string) (rows : list (string * V)) :
  NoDup (drop_duplicates seen rows).*1
  ∧ drop_duplicates seen rows `sublist_of` rows
  ∧ ∀ phrase, assoc phrase (drop_duplicates seen rows)
              = if bool_decide (phrase ∈ seen) then None else assoc phrase rows.
Proof.
  revert seen. induction rows as [|[p v] rows IH]; intros seen.
  { split_and!; [constructor|done|]. intros phrase. by case_bool_decide. }
  simpl. destruct (IH seen) as (Hnd & Hsub & Hassoc).
  destruct (IH (p :: seen)) as (Hnd' & Hsub' & Hassoc').
  case_bool_decide as Hp.
  - split_and!; [done|by apply sublist_cons|].
    intros phrase. rewrite Hassoc. case_bool_decide as Hphrase; [done|].
    destruct (decide (p = phrase)) as [->|]; done.
  - split_and!.
    + simpl. apply NoDup_cons. split; [|done].
      intros ([p' v'] & Heq & Hin)%list_elem_of_fmap. simpl in Heq. subst p'.
      assert (assoc p (drop_duplicates (p :: seen) rows) = None) as Hnone.
      { rewrite Hassoc'. rewrite bool_decide_eq_true_2; [done|by left]. }
      apply (assoc_Some p v') in Hin; [|done]. by rewrite Hnone in Hin.
    + by apply sublist_skip.
    + intros phrase. simpl. destruct (decide (p = phrase)) as [->|Hne].
      * by rewrite bool_decide_eq_false_2.
      * rewrite Hassoc'.
        rewrite (bool_decide_ext (phrase ∈ p :: seen) (phrase ∈ seen)); [done|].
        rewrite elem_of_cons. intuition congruence.
Qed.

Section phrases.
Context `{Library}.

(** X9: in load mode with phrase generation on, [_generate_phrase]
    returns the sequences rewritten by the model loaded from the
    configured path, one for one, and the trace gains the loading alone;
    when the path is not configured or the model cannot be loaded it
    raises and the trace is left as it was. *)
Theorem generate_phrase_load_mode (env : environment) (pd_data : list (list string))
    (section : string) (tr : list event) :
  getbool (configparser env) "generate_phrase" section = Ok true →
  ∀ r tr', _generate_phrase env pd_data true section tr = (r, tr') →
    (∀ out, r = Ok out →
       ∃ model_filepath model,
         getstr (configparser env) "phrase_model" section = Ok model_filepath
         ∧ Phraser_load env model_filepath = Ok model
         ∧ out = getitem model <$> pd_data
         ∧ tr' = tr ++ [ModelLoaded model_filepath])
    ∧ (∀ e, r = Raise e → tr' = tr).
Proof.
  intros Hon r tr'. unfold _generate_phrase, io_bind, lift, emit, io_ret.
  rewrite Hon. simpl.
  destruct (getstr _ "phrase_model" _) as [path|];
    [|intros ?; simplify_eq; by split].
  destruct (Phraser_load env path) as [m|] eqn:Hload;
    [|intros ?; simplify_eq; by split].
  intros ?; simplify_eq. split; [|done]. intros out [= <-]. by exists path, m.
Qed.

(** X10: in train mode with phrase generation on, a return value of
    [_generate_phrase] is the sequences rewritten, one for one, by a model
    trained on all the sequences with the configured hyperparameters.  The
    trace gains the training, the saving of that model at the path that
    the option [phrase_model] gives, and the dump at the path that the
    option [phrase_dump_filename] gives, in this order.  What is dumped is
    the export of the model with the later rows of a phrase dropped: one
    row for each exported phrase, its first one, in the order of the
    export. *)
Theorem generate_phrase_train_mode (env : environment) (pd_data : list (list string))
    (section : string) (tr : list event) (out : list (list string)) (tr' : list event) :
  getbool (configparser env) "generate_phrase" section = Ok true →
  _generate_phrase env pd_data false section tr = (Ok out, tr') →
  ∃ min_count threshold max_vocab_size progress_per scoring model
    model_filepath export_filepath rows,
    getint (configparser env) "min_count" section = Ok min_count
    ∧ getfloat (configparser env) "threshold" section = Ok threshold
    ∧ getint (configparser env) "max_vocab_size" section = Ok max_vocab_size
    ∧ getint (configparser env) "progress_per" section = Ok progress_per
    ∧ getstr (configparser env) "scoring" section = Ok scoring
    ∧ Phrases pd_data min_count threshold max_vocab_size progress_per scoring
      = Ok model
    ∧ getstr (configparser env) "phrase_model" section = Ok model_filepath
    ∧ getstr (configparser env) "phrase_dump_filename" section = Ok export_filepath
    ∧ out = getitem model <$> pd_data
    ∧ tr' = tr ++ [ModelTrained pd_data; ModelSaved model_filepath model;
                   PhrasesDumped export_filepath rows]
    ∧ rows = drop_duplicates [] (export_phrases model pd_data)
    ∧ NoDup rows.*1
    ∧ rows `sublist_of` export_phrases model pd_data
    ∧ ∀ phrase, assoc phrase rows = assoc phrase (export_phrases model pd_data).
Proof.
  intros Hon. unfold _generate_phrase, io_bind, lift, emit, io_ret.
  rewrite Hon. simpl.
  destruct (getint _ "min_count" _) as [min_count|]; [|done].
  destruct (getfloat _ "threshold" _) as [threshold|]; [|done].
  destruct (getint _ "max_vocab_size" _) as [max_vocab_size|]; [|done].
  destruct (getint _ "progress_per" _) as [progress_per|]; [|done].
  destruct (getstr _ "scoring" _) as [scoring|]; [|done].
  destruct (Phrases _ _ _ _ _ _) as [model|] eqn:Hmodel; [|done].
  destruct (getstr _ "phrase_model" _) as [model_filepath|]; [|done].
  destruct (getstr _ "phrase_dump_filename" _) as [export_filepath|]; [|done].
  intros [= <- <-].
  destruct (drop_duplicates_spec [] (export_phrases model pd_data))
    as (Hnd & Hsub & Hassoc).
  exists min_count, threshold, max_vocab_size, progress_per, scoring, model,
    model_filepath, export_filepath,
    (drop_duplicates [] (export_phrases model pd_data)).
  split_and!; [done..|by rewrite <-!app_assoc|done|done|done|].
  intros phrase. by rewrite Hassoc.
Qed.

(** X11: whatever happens, [_generate_phrase] only appends to the trace.
    In load mode it appends at most the loading of a model; in train mode
    it appends a training, then the saving, then the dump, and stops
    where an exception is raised: nothing is dumped without a model
    saved, nothing saved without a model trained, and no model is
    loaded. *)
Theorem generate_phrase_events_in_order (env : environment)
    (pd_data : list (list string)) (load_model : bool) (section : string)
    (tr : list event) :
  ∃ appended,
    (_generate_phrase env pd_data load_model section tr).2 = tr ++ appended
    ∧ kind_of <$> appended
      `prefix_of` (if load_model then [loaded] else [trained; saved; dumped]).
Proof.
  unfold _generate_phrase, io_bind, lift, emit, io_ret.
  destruct (getbool _ "generate_phrase" _) as [[]|]; simpl;
    [|exists []; split; [by rewrite app_nil_r|apply prefix_nil]..].
  destruct load_model.
  - destruct (getstr _ "phrase_model" _) as [path|]; simpl;
      [|exists []; split; [by rewrite app_nil_r|apply prefix_nil]].
    destruct (Phraser_load env path) as [m|]; simpl;
      [|exists []; split; [by rewrite app_nil_r|apply prefix_nil]].
    by exists [ModelLoaded path].
  - destruct (getint _ "min_count" _); simpl;
      [|exists []; split; [by rewrite app_nil_r|apply prefix_nil]].
    destruct (getfloat _ "threshold" _); simpl;
      [|exists []; split; [by rewrite app_nil_r|apply prefix_nil]].
    destruct (getint _ "max_vocab_size" _); simpl;
      [|exists []; split; [by rewrite app_nil_r|apply prefix_nil]].
    destruct (getint _ "progress_per" _); simpl;
      [|exists []; split; [by rewrite app_nil_r|apply prefix_nil]].
    destruct (getstr _ "scoring" _); simpl;
      [|exists []; split; [by rewrite app_nil_r|apply prefix_nil]].
    destruct (Phrases _ _ _ _ _ _) as [model|]; simpl;
      [|exists []; split; [by rewrite app_nil_r|apply prefix_nil]].
    destruct (getstr _ "phrase_model" _) as [model_filepath|]; simpl;
      [|exists [ModelTrained pd_data]; split; [done|by exists [saved; dumped]]].
    destruct (getstr _ "phrase_dump_filename" _) as [export_filepath|]; simpl.
    + eexists [ModelTrained pd_data; ModelSaved model_filepath model;
               PhrasesDumped export_filepath _].
      split; [by rewrite <-!app_assoc|done].
    + exists [ModelTrained pd_data; ModelSaved model_filepath model].
      split; [by rewrite <-!app_assoc|by exists [dumped]].
Qed.
End phrases.

Section phrase_witnesses.
#[local] Existing Instance exporting_library.

Lemma generate_phrase_load_mode_witness :
  (∀ out, Ok [["ice"; "cream"]; []] = Ok out →
     ∃ model_filepath model,
       getstr (configparser training_env) "phrase_model" "phrase" = Ok model_filepath
       ∧ Phraser_load training_env model_filepath = Ok model
       ∧ out = getitem model <$> [["ice"; "cream"]; []]
       ∧ [ModelLoaded "phrases.model"] = [] ++ [ModelLoaded model_filepath])
  ∧ (∀ e, Ok [["ice"; "cream"]; []] = Raise e → [ModelLoaded "phrases.model"] = []).
Proof.
  apply (generate_phrase_load_mode (H:=exporting_library) training_env
           [["ice"; "cream"]; []] "phrase" []); reflexivity.
Defined.

Lemma generate_phrase_train_mode_witness :
  _generate_phrase training_env [["ice"; "cream"]; []] false "phrase" []
  = (Ok [["ice"; "cream"]; []],
     [ModelTrained [["ice"; "cream"]; []]; ModelSaved "phrases.model" ();
      PhrasesDumped "phrases.tsv" [("ice cream", "12.5"); ("new york", "11.0")]])
  ∧ ∃ min_count threshold max_vocab_size progress_per scoring model
      model_filepath export_filepath rows,
      getint (configparser training_env) "min_count" "phrase" = Ok min_count
      ∧ getfloat (configparser training_env)
          "threshold" "phrase" = Ok threshold
      ∧ getint (configparser training_env) "max_vocab_size" "phrase" = Ok max_vocab_size
      ∧ getint (configparser training_env) "progress_per" "phrase" = Ok progress_per
      ∧ getstr (configparser training_env) "scoring" "phrase" = Ok scoring
      ∧ Phrases [["ice"; "cream"]; []] min_count
          threshold max_vocab_size progress_per scoring
        = Ok model
      ∧ getstr (configparser training_env) "phrase_model" "phrase" = Ok model_filepath
      ∧ getstr (configparser training_env) "phrase_dump_filename" "phrase"
        = Ok export_filepath
      ∧ [["ice"; "cream"]; []] = getitem model <$> [["ice"; "cream"]; []]
      ∧ [ModelTrained [["ice"; "cream"]; []]; ModelSaved "phrases.model" ();
         PhrasesDumped "phrases.tsv" [("ice cream", "12.5"); ("new york", "11.0")]]
        = [] ++ [ModelTrained [["ice"; "cream"]; []];
                 ModelSaved model_filepath model;
                 PhrasesDumped export_filepath rows]
      ∧ rows = drop_duplicates [] (export_phrases model [["ice"; "cream"]; []])
      ∧ NoDup rows.*1
      ∧ rows `sublist_of` export_phrases model [["ice"; "cream"]; []]
      ∧ ∀ phrase, assoc phrase rows
                  = assoc phrase (export_phrases model [["ice"; "cream"]; []]).
Proof.
  split; [reflexivity|].
  apply (generate_phrase_train_mode (H:=exporting_library) training_env
           [["ice"; "cream"]; []] "phrase" []); reflexivity.
Defined.
End phrase_witnesses.

(** ** The vocabulary: what it depends on, and the vocabulary of a processed column *)

(** X12: the vocabulary depends on which processed strings there are, not
    on their order or on how often one occurs: two collections with the
    same strings have the same return values of [get_vocabs]. *)
Theorem get_vocabs_rows_as_set (pd_data pd_data' : list string) (out : list string) :
  (∀ row, row ∈ pd_data ↔ row ∈ pd_data') →
  get_vocabs pd_data out ↔ get_vocabs pd_data' out.
Proof.
  assert (Hone : ∀ l l', (∀ row, row ∈ l ↔ row ∈ l') →
                         get_vocabs l out → get_vocabs l' out).
  { intros l l' Hrows [uniq [Hnd Hin]]. constructor. split; [done|].
    intros x. rewrite Hin, !elem_of_collect_vocabs.
    split; intros (row & Hrow & Hx); exists row; (split; [by apply Hrows|done]). }
  intros Hrows. split; apply Hone; [done|]. intros row. by rewrite Hrows.
Qed.

Lemma get_vocabs_rows_as_set_witness :
  get_vocabs ["a b"; "c"; "a b"] ["a"; "b"; "c"]
  ↔ get_vocabs ["c"; "a b"] ["a"; "b"; "c"].
Proof.
  apply (get_vocabs_rows_as_set ["a b"; "c"; "a b"] ["c"; "a b"]).
  intros row. rewrite !elem_of_cons. rewrite !elem_of_nil. tauto.
Defined.

Lemma key_le_transitive (key : string → string) : Transitive (key_le key).
Proof. intros a b c Hab Hbc. unfold key_le in *. by etrans. Qed.

(** X13: when no two distinct tokens have the same lower-case form,
    [get_vocabs] has exactly one return value; the iteration order of the
    set shows only between tokens that differ in case alone. *)
Theorem get_vocabs_deterministic (pd_data : list string) :
  (∀ t1 t2, t1 ∈ collect_vocabs pd_data → t2 ∈ collect_vocabs pd_data →
            Py.lower t1 = Py.lower t2 → t1 = t2) →
  ∃ vocabs, ∀ out, get_vocabs pd_data out ↔ out = vocabs.
Proof.
  intros Hinj. destruct (get_vocabs_total pd_data) as [vocabs Hvocabs].
  exists vocabs. intros out. split; [|by intros ->].
  intros Hout.
  pose proof (get_vocabs_spec _ _ Hout) as (Hnd & Hin & Hsorted).
  pose proof (get_vocabs_spec _ _ Hvocabs) as (Hnd' & Hin' & Hsorted').
  pose proof (key_le_transitive Py.lower) as Htrans.
  apply (Sorted_unique_strong (key_le Py.lower)); [|done..|].
  - intros x1 x2 Hx1 Hx2 H12 H21. apply Hinj.
    + apply elem_of_collect_vocabs. by apply Hin.
    + apply elem_of_collect_vocabs. by apply Hin'.
    + by apply (anti_symm String.le).
  - apply NoDup_Permutation; [done..|]. intros x. by rewrite Hin, Hin'.
Qed.

Lemma get_vocabs_deterministic_witness :
  ∃ vocabs, ∀ out, get_vocabs ["b a"; "c a"] out ↔ out = vocabs.
Proof.
  apply (get_vocabs_deterministic ["b a"; "c a"]).
  intros t1 t2 Ht1 Ht2. vm_compute collect_vocabs in Ht1, Ht2.
  repeat (apply elem_of_cons in Ht1 as [->|Ht1]);
    try (by apply elem_of_nil in Ht1);
    repeat (apply elem_of_cons in Ht2 as [->|Ht2]);
    try (by apply elem_of_nil in Ht2); by vm_compute.
Defined.

Lemma all_chars_impl (P Q : ascii → bool) (s : string) :
  (∀ c, P c = true → Q c = true) → all_chars P s = true → all_chars Q s = true.
Proof.
  intros HPQ. induction s as [|c s IH]; [done|]. simpl.
  intros [Hc Hs]%andb_true_iff. by rewrite (HPQ c Hc), IH.
Qed.

Lemma split_on_no_sep (sep : ascii) (t : string) :
  all_chars (λ c, negb (bool_decide (c = sep))) t = true →
  Py.split_on sep t = [t].
Proof.
  induction t as [|c t IH]; [done|]. simpl.
  intros [Hc%negb_true_iff%bool_decide_eq_false Ht]%andb_true_iff.
  destruct (decide (c = sep)); [done|]. by rewrite IH.
Qed.

Lemma split_on_app_sep (sep : ascii) (t s : string) :
  all_chars (λ c, negb (bool_decide (c = sep))) t = true →
  Py.split_on sep (t +:+ String sep s) = t :: Py.split_on sep s.
Proof.
  induction t as [|c t IH]; intros Hall.
  - change ("" +:+ String sep s) with (String sep s). simpl.
    by destruct (decide (sep = sep)).
  - simpl in Hall.
    apply andb_true_iff in Hall as [Hc%negb_true_iff%bool_decide_eq_false Ht].
    rewrite app_cons. simpl. destruct (decide (c = sep)); [done|]. by rewrite IH.
Qed.

(** Joining tokens with a space and splitting at the space gives the
    tokens back, if there is one at least; no token gives one empty
    field. *)
Lemma split_on_join (tokens : list string) :
  Forall is_token tokens →
  Py.split_on " " (Py.join " " tokens) = if tokens is [] then [""] else tokens.
Proof.
  assert (Hspace : ∀ t, is_token t →
    all_chars (λ c, negb (bool_decide (c = " "%char))) t = true).
  { intros t [_ Ht]. eapply all_chars_impl; [|done]. intros c Hc.
    apply negb_true_iff, bool_decide_eq_false. by intros ->. }
  induction 1 as [|t tokens Ht Htokens IH]; [done|].
  destruct tokens as [|t' tokens].
  - simpl. by apply split_on_no_sep, Hspace.
  - change (Py.join " " (t :: t' :: tokens))
      with (t +:+ String " " (Py.join " " (t' :: tokens))).
    rewrite split_on_app_sep by by apply Hspace. by rewrite IH.
Qed.

Section processed.
Context `{Library}.

(** X14: with phrase generation off, every string that
    [preprocess_column] returns is single-spaced, and the vocabulary of
    the returned strings is made of the tokens of the records: a token is
    in a return value of [get_vocabs] exactly when the chain gives it for
    some record, and the empty token exactly when the chain leaves some
    record without any token. *)
Theorem vocabulary_of_processed_column
    (env : environment) (pd_data : list cell) (load_model : bool)
    (tr tr' : list event) (out : list string) :
  getbool (configparser env) "generate_phrase" "phrase" = Ok false →
  preprocess_column env pd_data load_model tr = (Ok out, tr') →
  ∃ custom_filters,
    _build_custom_filter_list env "filter" = Ok custom_filters
    ∧ (∀ row, row ∈ out → Py.join " " (Py.split row) = row)
    ∧ ∀ vocabs t, get_vocabs out vocabs →
        t ∈ vocabs
        ↔ ∃ x tokens, x ∈ pd_data
                      ∧ preprocess_string x custom_filters = Ok tokens
                      ∧ (t ∈ tokens ∨ tokens = [] ∧ t = "").
Proof.
  intros Hoff. unfold preprocess_column, io_bind, lift, io_ret.
  destruct (_build_custom_filter_list env "filter") as [fs|]; [|done].
  destruct (series_apply _ pd_data) as [sentences|] eqn:Hs; [|done].
  rewrite generate_phrase_guard by done. intros [= <- <-].
  apply series_apply_Forall2 in Hs.
  assert (Htokens : Forall (Forall is_token) sentences).
  { clear -Hs. induction Hs as [|x tokens l k Hx _ IH]; constructor; [|done].
    unfold preprocess_string in Hx.
    destruct (to_unicode x) as [s|]; [|done]. simpl in Hx.
    destruct (foldl _ _ fs) as [s'|]; [|done]. injection Hx as <-.
    apply split_is_token. }
  exists fs. split_and!; [done| |].
  - intros row (tokens & -> & Hin)%list_elem_of_fmap.
    rewrite split_join; [done|]. by apply (proj1 (Forall_forall _ _) Htokens).
  - intros vocabs t (_ & Hvocabs & _)%get_vocabs_spec. rewrite Hvocabs. split.
    + intros (row & (tokens & -> & Hin)%list_elem_of_fmap & Ht).
      rewrite split_on_join in Ht
        by by apply (proj1 (Forall_forall _ _) Htokens).
      apply list_elem_of_lookup_1 in Hin as [i Hi].
      destruct (Forall2_lookup_r _ _ _ _ _ Hs Hi) as (x & Hx & Hpre).
      exists x, tokens. split_and!; [by eapply list_elem_of_lookup_2|done|].
      destruct tokens; [|by left]. right. split; [done|].
      by apply list_elem_of_singleton in Ht.
    + intros (x & tokens & Hx & Hpre & Ht).
      apply list_elem_of_lookup_1 in Hx as [i Hi].
      destruct (Forall2_lookup_l _ _ _ _ _ Hs Hi) as (tokens' & Hi' & Hpre').
      rewrite Hpre in Hpre'. injection Hpre' as <-.
      exists (Py.join " " tokens). split.
      * apply list_elem_of_fmap. exists tokens.
        split; [done|]. by eapply list_elem_of_lookup_2.
      * rewrite split_on_join
          by (eapply (proj1 (Forall_forall _ _) Htokens), list_elem_of_lookup_2;
              done).
        destruct Ht as [Ht|[-> ->]]; [|by left].
        destruct tokens; [by apply elem_of_nil in Ht|done].
Qed.
End processed.

Lemma vocabulary_of_processed_column_witness :
  ∃ custom_filters,
    _build_custom_filter_list (H:=plain_library) (sample_env scrambled_flags)
      "filter" = Ok custom_filters
    ∧ (∀ row, row ∈ ["sat"; ""; "cats meow loudly"] →
              Py.join " " (Py.split row) = row)
    ∧ ∀ vocabs t, get_vocabs ["sat"; ""; "cats meow loudly"] vocabs →
        t ∈ vocabs
        ↔ ∃ x tokens, x ∈ column_with_empty
                      ∧ preprocess_string (H:=plain_library) x custom_filters
                        = Ok tokens
                      ∧ (t ∈ tokens ∨ tokens = [] ∧ t = "").
Proof.
  apply (vocabulary_of_processed_column (H:=plain_library)
           (sample_env scrambled_flags) column_with_empty false [] []).
  - reflexivity.
  - by vm_compute.
Defined.

(** ** The configuration wrapper *)

Lemma assoc_is_Some {V : Type} (key : string) (l : list (string * V)) :
  is_Some (assoc key l) ↔ key ∈ l.*1.
Proof.
  induction l as [|[k v] l IH]; simpl.
  - split; [by intros [? ?]|by intros ?%elem_of_nil].
  - destruct (decide (k = key)) as [->|Hne].
    + split; [intros _; by left|by eexists].
    + rewrite IH, elem_of_cons. split; [by right|]. by intros [?|?].
Qed.

(** A value without a percent sign is handed out as it is. *)
Lemma interpolate_some_plain lookup key section levels (value : string) :
  Config.contains "%" value = false →
  Config._interpolate_some lookup key section (S levels) Config.Plain value = Ok value.
Proof.
  induction value as [|c value IH]; [done|].
  intros [Hc Hvalue]%orb_false_iff. rewrite interpolate_some_cons. cbv zeta.
  destruct (bool_decide (c = "%"%char)); [done|]. by rewrite IH.
Qed.

(** The interpolation raises no exceptions but its own. *)
Lemma interpolate_some_raises lookup key section levels state rest e :
  Config._interpolate_some lookup key section levels state rest = Raise e →
  interpolation_error e.
Proof.
  revert state rest e. induction levels as [|levels IH]; [by intros ?? e [= <-]|].
  intros state rest. revert state. induction rest as [|c rest IHrest]; intros state e.
  { destruct state; [done|by intros [= <-]..]. }
  rewrite interpolate_some_cons. cbv zeta.
  pose proof (IHrest Config.Plain) as Hplain.
  destruct (Config._interpolate_some lookup key section (S levels) Config.Plain rest)
    as [tail|e'].
  - destruct state as [| |var|var].
    + destruct (bool_decide (c = "%"%char)); [apply IHrest|done].
    + destruct (bool_decide (c = "%"%char)); [done|].
      destruct (bool_decide (c = "("%char)); [apply IHrest|by intros [= <-]].
    + destruct (bool_decide (c = ")"%char)); [|apply IHrest].
      destruct (bool_decide (var = "")); [by intros [= <-]|apply IHrest].
    + destruct (bool_decide (c = "s"%char)); [|by intros [= <-]].
      destruct (lookup var) as [v|]; [|by intros [= <-]].
      destruct (Config.contains "%" v); [|done].
      pose proof (IH Config.Plain v) as Hv.
      destruct (Config._interpolate_some lookup key section levels Config.Plain v);
        [done|]. intros [= <-]. by apply Hv.
  - specialize (Hplain e' eq_refl). destruct state as [| |var|var].
    + destruct (bool_decide (c = "%"%char)); [apply IHrest|by intros [= <-]].
    + destruct (bool_decide (c = "%"%char)); [by intros [= <-]|].
      destruct (bool_decide (c = "("%char)); [apply IHrest|by intros [= <-]].
    + destruct (bool_decide (c = ")"%char)); [|apply IHrest].
      destruct (bool_decide (var = "")); [by intros [= <-]|apply IHrest].
    + destruct (bool_decide (c = "s"%char)); [|by intros [= <-]].
      destruct (lookup var) as [v|]; [|by intros [= <-]].
      destruct (Config.contains "%" v); [|by intros [= <-]].
      pose proof (IH Config.Plain v) as Hv.
      destruct (Config._interpolate_some lookup key section levels Config.Plain v);
        [by intros [= <-]|]. intros [= <-]. by apply Hv.
Qed.

Lemma before_get_finds_value lookup key section value :
  finds_value (Config.before_get lookup key section value).
Proof.
  unfold finds_value, Config.before_get.
  destruct (Config._interpolate_some _ _ _ _ _ value) as [v|e] eqn:Hget.
  - left. by exists v.
  - right. exists e. split; [done|]. by eapply interpolate_some_raises.
Qed.

Lemma finds_value_KeyError (key : string) : ¬ finds_value (Raise (KeyError key)).
Proof. intros [[v [=]]|(e & [= <-] & [])]. Qed.

(** X15: for a section other than DEFAULT, the options that [options]
    lists for the section, its own and those of DEFAULT, are exactly the
    ones for which [getstr] finds a value: it returns the value with its
    references expanded, or the interpolation of the value fails.  For a
    key that is not listed it raises [KeyError]; a value without a percent
    sign is returned as it is written.  For a section that does not exist
    [options] raises [NoSectionError], as [getint] and [getbool] do, while
    [getstr] raises [KeyError]. *)
Theorem getstr_iff_option_listed (cfg : ConfigParser) (key section : string) :
  section ≠ "DEFAULT" →
  ((∃ opts, Wrapper.options cfg section = Ok opts ∧ key ∈ opts)
   ↔ finds_value (getstr cfg key section))
  ∧ (∀ opts, Wrapper.options cfg section = Ok opts → key ∉ opts →
       getstr cfg key section = Raise (KeyError key))
  ∧ (∀ opts value,
       assoc section (sections cfg) = Some opts →
       Config.unified cfg opts key = Some value →
       Config.contains "%" value = false →
       getstr cfg key section = Ok value)
  ∧ (section ∉ Wrapper.sections cfg →
       Wrapper.options cfg section = Raise (NoSectionError section)
       ∧ getstr cfg key section = Raise (KeyError section)
       ∧ getint cfg key section = Raise (NoSectionError section)
       ∧ getbool cfg key section = Raise (NoSectionError section)).
Proof.
  intros Hsection.
  unfold getstr, getint, getbool, Config.get, Config.section_dict,
    Wrapper.options, Wrapper.sections.
  destruct (decide (section = "DEFAULT")) as [|_]; [done|].
  destruct (assoc section (sections cfg)) as [opts|] eqn:Hopts.
  - assert (key ∈ opts.*1 ++ filter (λ key, key ∉ opts.*1) (defaults cfg).*1
            ↔ is_Some (Config.unified cfg opts key)) as Hlisted.
    { unfold Config.unified. rewrite elem_of_app, list_elem_of_filter.
      rewrite <-!assoc_is_Some.
      destruct (assoc key opts) as [v|].
      - split; [by eexists|]. intros _. left. by eexists.
      - split; [intros [[? [=]]|[_ ?]]; done|]. intros Hdef. right.
        split; [by intros [? [=]]|done]. }
    split_and!.
    + split.
      * intros (l & [= <-] & Hin). apply Hlisted in Hin as [v ->].
        apply before_get_finds_value.
      * intros Hfinds. eexists. split; [done|]. apply Hlisted.
        destruct (Config.unified cfg opts key); [by eexists|].
        by apply finds_value_KeyError in Hfinds.
    + intros l [= <-] Hnot.
      destruct (Config.unified cfg opts key); [|done].
      exfalso. apply Hnot, Hlisted. by eexists.
    + intros opts' value [= <-] -> Hplain. by apply interpolate_some_plain.
    + intros Hnot. exfalso. apply Hnot, assoc_is_Some. by rewrite Hopts.
  - split_and!; [|done..].
    split; [by intros (l & ? & _)|]. by intros ?%finds_value_KeyError.
Qed.

Lemma getstr_iff_option_listed_witness :
  ((∃ opts, Wrapper.options small_config "phrase" = Ok opts ∧ "threshold" ∈ opts)
   ↔ finds_value (getstr small_config "threshold" "phrase"))
  ∧ (∀ opts, Wrapper.options small_config "phrase" = Ok opts → "threshold" ∉ opts →
       getstr small_config "threshold" "phrase" = Raise (KeyError "threshold"))
  ∧ (∀ opts value,
       assoc "phrase" (sections small_config) = Some opts →
       Config.unified small_config opts "threshold" = Some value →
       Config.contains "%" value = false →
       getstr small_config "threshold" "phrase" = Ok value)
  ∧ ("phrase" ∉ Wrapper.sections small_config →
       Wrapper.options small_config "phrase" = Raise (NoSectionError "phrase")
       ∧ getstr small_config "threshold" "phrase" = Raise (KeyError "phrase")
       ∧ getint small_config "threshold" "phrase" = Raise (NoSectionError "phrase")
       ∧ getbool small_config "threshold" "phrase" = Raise (NoSectionError "phrase")).
Proof. by apply (getstr_iff_option_listed small_config "threshold" "phrase"). Defined.

(** X16: the section name DEFAULT, which is the default argument of every
    method of the wrapper, does not work for [options]: it raises
    [NoSectionError], whatever the defaults are.  [getstr] with this name
    looks at the defaults, and only at them: it finds a value for exactly
    the options of DEFAULT, returns it as it is written when it has no
    percent sign, and raises [KeyError] for any other key. *)
Theorem options_of_DEFAULT_raises (cfg : ConfigParser) (key : string) :
  "DEFAULT" ∉ Wrapper.sections cfg →
  Wrapper.options cfg "DEFAULT" = Raise (NoSectionError "DEFAULT")
  ∧ (key ∈ (defaults cfg).*1 ↔ finds_value (getstr cfg key "DEFAULT"))
  ∧ (key ∉ (defaults cfg).*1 → getstr cfg key "DEFAULT" = Raise (KeyError key))
  ∧ (∀ value, assoc key (defaults cfg) = Some value →
       Config.contains "%" value = false →
       getstr cfg key "DEFAULT" = Ok value).
Proof.
  intros Hnot. unfold Wrapper.options, Wrapper.sections in *. split.
  { destruct (assoc "DEFAULT" (sections cfg)) eqn:Hopts; [|done].
    exfalso. apply Hnot, assoc_is_Some. by rewrite Hopts. }
  unfold getstr, Config.section_dict, Config.unified. simpl.
  rewrite <-assoc_is_Some.
  destruct (assoc key (defaults cfg)) as [v|]; split_and!.
  - split; [intros _; apply before_get_finds_value|by eexists].
  - intros []. by eexists.
  - intros value [= <-] Hplain. by apply interpolate_some_plain.
  - split; [by intros [? [=]]|by intros ?%finds_value_KeyError].
  - done.
  - done.
Qed.

Lemma options_of_DEFAULT_raises_witness :
  Wrapper.options small_config "DEFAULT" = Raise (NoSectionError "DEFAULT")
  ∧ ("threshold" ∈ (defaults small_config).*1
     ↔ finds_value (getstr small_config "threshold" "DEFAULT"))
  ∧ ("threshold" ∉ (defaults small_config).*1 →
       getstr small_config "threshold" "DEFAULT" = Raise (KeyError "threshold"))
  ∧ (∀ value, assoc "threshold" (defaults small_config) = Some value →
       Config.contains "%" value = false →
       getstr small_config "threshold" "DEFAULT" = Ok value).
Proof.
  apply (options_of_DEFAULT_raises small_config "threshold").
  apply (bool_decide_unpack _). by vm_compute.
Defined.

(** ** The column: which exception is raised *)

Section failing_record.
Context `{Library}.

(** X17: when the chain is built and a record raises in it while all the
    records before it pass, [preprocess_column] raises the exception of
    that record, whatever the records after it are, and leaves the trace
    as it was. *)
Theorem preprocess_column_first_failure
    (env : environment) (before : list cell) (x : cell) (after : list cell)
    (load_model : bool) (tr : list event)
    (custom_filters : list custom_filter) (e : exn) :
  _build_custom_filter_list env "filter" = Ok custom_filters →
  Forall (λ y, ∃ tokens, preprocess_string y custom_filters = Ok tokens) before →
  preprocess_string x custom_filters = Raise e →
  preprocess_column env (before ++ x :: after) load_model tr = (Raise e, tr).
Proof.
  intros Hbuild Hbefore Hx. unfold preprocess_column, io_bind, lift.
  rewrite Hbuild.
  assert (series_apply (λ y, preprocess_string y custom_filters)
            (before ++ x :: after) = Raise e) as ->; [|done].
  induction Hbefore as [|y before [tokens Hy] _ IH]; simpl.
  - by rewrite Hx.
  - by rewrite Hy, IH.
Qed.
End failing_record.

Lemma preprocess_column_first_failure_witness :
  preprocess_column (H:=plain_library) (sample_env scrambled_flags)
    ([Str "The Kitty sat."] ++ Missing :: [Str "Cats meow loudly"]) false []
  = (Raise TypeError, []).
Proof.
  eapply (preprocess_column_first_failure (H:=plain_library)).
  - reflexivity.
  - repeat constructor. by eexists.
  - reflexivity.
Defined.

(** ** The column: records are processed one by one *)

Lemma series_apply_app {A B : Type} (f : A → result B) (l1 l2 : list A) :
  series_apply f (l1 ++ l2)
  = ys1 ← series_apply f l1; ys2 ← series_apply f l2; Ok (ys1 ++ ys2).
Proof.
  induction l1 as [|x l1 IH]; simpl.
  - by destruct (series_apply f l2).
  - destruct (f x) as [y|]; [|done]. simpl. rewrite IH.
    destruct (series_apply f l1) as [ys1|]; [|done]. simpl.
    by destruct (series_apply f l2).
Qed.

Section sharding.
Context `{Library}.

(** X18: with phrase generation off, a column can be processed in parts:
    [preprocess_column] returns for two columns put one after the other
    exactly when it returns for each of them, and then it returns the two
    results put one after the other. *)
Theorem preprocess_column_app
    (env : environment) (pd_data1 pd_data2 : list cell) (load_model : bool)
    (tr tr' : list event) (out : list string) :
  getbool (configparser env) "generate_phrase" "phrase" = Ok false →
  preprocess_column env (pd_data1 ++ pd_data2) load_model tr = (Ok out, tr')
  ↔ ∃ out1 out2,
      out = out1 ++ out2 ∧ tr' = tr
      ∧ preprocess_column env pd_data1 load_model tr = (Ok out1, tr)
      ∧ preprocess_column env pd_data2 load_model tr = (Ok out2, tr).
Proof.
  intros Hoff. unfold preprocess_column, io_bind, lift, io_ret.
  destruct (_build_custom_filter_list env "filter") as [fs|].
  2:{ split; [done|]. by intros (out1 & out2 & _ & _ & ? & _). }
  rewrite series_apply_app.
  destruct (series_apply _ pd_data1) as [s1|]; simpl.
  2:{ split; [done|]. by intros (out1 & out2 & _ & _ & ? & _). }
  destruct (series_apply _ pd_data2) as [s2|]; simpl.
  2:{ split; [done|]. by intros (out1 & out2 & _ & _ & _ & ?). }
  rewrite !generate_phrase_guard by done. split.
  - intros [= <- <-]. exists (Py.join " " <$> s1), (Py.join " " <$> s2).
    by rewrite fmap_app.
  - intros (out1 & out2 & -> & -> & [= <-] & [= <-]). by rewrite fmap_app.
Qed.
End sharding.

Lemma preprocess_column_app_witness :
  preprocess_column (H:=plain_library) (sample_env scrambled_flags)
    ([Str "The Kitty sat."] ++ [Str ""; Str "Cats meow loudly"]) false []
  = (Ok ["sat"; ""; "cats meow loudly"], [])
  ↔ ∃ out1 out2,
      ["sat"; ""; "cats meow loudly"] = out1 ++ out2
      ∧ ([] : list (@event plain_library)) = []
      ∧ preprocess_column (H:=plain_library) (sample_env scrambled_flags)
          [Str "The Kitty sat."] false [] = (Ok out1, [])
      ∧ preprocess_column (H:=plain_library) (sample_env scrambled_flags)
          [Str ""; Str "Cats meow loudly"] false [] = (Ok out2, []).
Proof.
  apply (preprocess_column_app (H:=plain_library)). reflexivity.
Defined.
